(** * Annotation editing engine: a shallow embedding of [CaseAnnotations]

    The development follows the React component that owns the annotation
    editor: its geometry helpers ([clamp], [imageDims], [toNorm],
    [fromNorm], [distanceToLine]), the hit test ([getAnnotationAt]), the
    history functions ([pushHistory], [undo], [redo]) and the three pointer
    handlers.

    Numbers.  A JavaScript [number] is modelled as an exact real extended
    with the three IEEE special values [+Infinity], [-Infinity] and [NaN].
    Arithmetic on finite values is exact (rounding and overflow are
    abstracted away); arithmetic on special values follows ECMAScript.
    Negative zero is identified with zero, so [x / 0] takes the sign of
    [x]. *)

From Stdlib Require Import Reals Lra Lia List String Bool Arith Permutation.
Import ListNotations.

Open Scope R_scope.

(* ================================================================== *)
(** ** JavaScript numbers *)

Module JS.

Inductive number : Type :=
| Num (r : R)
| PosInf
| NegInf
| NaN.

Definition Rltb (x y : R) : bool := if Rlt_dec x y then true else false.
Definition Rleb (x y : R) : bool := if Rle_dec x y then true else false.
Definition Reqb (x y : R) : bool := if Req_dec_T x y then true else false.

Definition inf_of_sign (positive : bool) : number :=
  if positive then PosInf else NegInf.

(** Unary minus. *)
Definition neg (a : number) : number :=
  match a with
  | Num x => Num (- x)
  | PosInf => NegInf
  | NegInf => PosInf
  | NaN => NaN
  end.

(** [a + b] *)
Definition add (a b : number) : number :=
  match a, b with
  | NaN, _ | _, NaN => NaN
  | Num x, Num y => Num (x + y)
  | PosInf, NegInf | NegInf, PosInf => NaN
  | PosInf, _ | _, PosInf => PosInf
  | NegInf, _ | _, NegInf => NegInf
  end.

(** [a - b] *)
Definition sub (a b : number) : number := add a (neg b).

(** [a * b] *)
Definition mul (a b : number) : number :=
  match a, b with
  | NaN, _ | _, NaN => NaN
  | Num x, Num y => Num (x * y)
  | Num x, PosInf | PosInf, Num x =>
      if Reqb x 0 then NaN else inf_of_sign (Rltb 0 x)
  | Num x, NegInf | NegInf, Num x =>
      if Reqb x 0 then NaN else inf_of_sign (Rltb x 0)
  | PosInf, PosInf | NegInf, NegInf => PosInf
  | PosInf, NegInf | NegInf, PosInf => NegInf
  end.

(** [a / b]: a zero divisor yields an infinity of the sign of [a], and
    [0 / 0] is [NaN]. *)
Definition div (a b : number) : number :=
  match a, b with
  | NaN, _ | _, NaN => NaN
  | Num x, Num y =>
      if Reqb y 0
      then (if Reqb x 0 then NaN else inf_of_sign (Rltb 0 x))
      else Num (x / y)
  | Num _, PosInf | Num _, NegInf => Num 0
  | PosInf, Num y => inf_of_sign (negb (Rltb y 0))
  | NegInf, Num y => inf_of_sign (Rltb y 0)
  | _, _ => NaN
  end.

(** [a < b]; every comparison with [NaN] is false. *)
Definition lt (a b : number) : bool :=
  match a, b with
  | NaN, _ | _, NaN => false
  | Num x, Num y => Rltb x y
  | _, NegInf => false
  | NegInf, _ => true
  | PosInf, _ => false
  | _, PosInf => true
  end.

(** [a <= b] *)
Definition le (a b : number) : bool :=
  match a, b with
  | NaN, _ | _, NaN => false
  | Num x, Num y => Rleb x y
  | NegInf, _ => true
  | _, NegInf => false
  | _, PosInf => true
  | PosInf, _ => false
  end.

(** [a > b] and [a >= b] *)
Definition gt (a b : number) : bool := lt b a.
Definition ge (a b : number) : bool := le b a.

(** [a !== b] on numbers: [NaN] differs from everything. *)
Definition strict_neq (a b : number) : bool :=
  match a, b with
  | NaN, _ | _, NaN => true
  | Num x, Num y => negb (Reqb x y)
  | PosInf, PosInf | NegInf, NegInf => false
  | _, _ => true
  end.

(** [Math.max(a, b)] and [Math.min(a, b)]: [NaN] if either argument is. *)
Definition Math_max (a b : number) : number :=
  match a, b with
  | NaN, _ | _, NaN => NaN
  | _, _ => if lt a b then b else a
  end.

Definition Math_min (a b : number) : number :=
  match a, b with
  | NaN, _ | _, NaN => NaN
  | _, _ => if lt b a then b else a
  end.

(** [Math.abs(a)] *)
Definition Math_abs (a : number) : number :=
  match a with
  | Num x => Num (Rabs x)
  | PosInf | NegInf => PosInf
  | NaN => NaN
  end.

(** [Math.sqrt(a)] *)
Definition Math_sqrt (a : number) : number :=
  match a with
  | Num x => if Rltb x 0 then NaN else Num (sqrt x)
  | PosInf => PosInf
  | NegInf | NaN => NaN
  end.

(** [Math.pow(a, 2)] *)
Definition Math_pow2 (a : number) : number := mul a a.

(** [Math.hypot(a, b)]: an infinite argument wins over [NaN]. *)
Definition Math_hypot (a b : number) : number :=
  match a, b with
  | PosInf, _ | NegInf, _ | _, PosInf | _, NegInf => PosInf
  | NaN, _ | _, NaN => NaN
  | Num x, Num y => Num (sqrt (x * x + y * y))
  end.

(** A number that is an ordinary real between [lo] and [hi]. *)
Definition within (lo hi : R) (a : number) : Prop :=
  exists r, a = Num r /\ lo <= r <= hi.

End JS.

Import JS.

Declare Scope js_scope.
Delimit Scope js_scope with js.
Bind Scope js_scope with number.
Infix "+" := add : js_scope.
Infix "-" := sub : js_scope.
Infix "*" := mul : js_scope.
Infix "/" := div : js_scope.
Infix "<?" := lt : js_scope.
Infix "<=?" := le : js_scope.
Infix ">?" := gt (at level 70) : js_scope.
Infix ">=?" := ge (at level 70) : js_scope.
Coercion Num : R >-> number.

(* ================================================================== *)
(** ** Geometry utilities *)

(** A [DOMRect] as returned by [getBoundingClientRect()]. *)
Record DOMRect : Type := mkDOMRect {
  left : number;
  top : number;
  width : number;
  height : number
}.

(** A point [{x, y}]. *)
Record Point : Type := mkPoint {
  pt_x : number;
  pt_y : number
}.

(** What the two element refs resolve to when a handler runs:
    [containerRef.current] and [imgRef.current] are either [null] or an
    element, of which only the bounding rectangle is observed. *)
Record Layout : Type := mkLayout {
  containerRef : option DOMRect;
  imgRef : option DOMRect
}.

(** [clamp(v, min, max)] *)
Definition clamp (v min max : number) : number :=
  Math_max min (Math_min max v).

(** [imageDims()] *)
Definition imageDims (L : Layout) : DOMRect :=
  match imgRef L, containerRef L with
  | Some imgRect, Some rect =>
      {| left := (left imgRect - left rect)%js;
         top := (top imgRect - top rect)%js;
         width := width imgRect;
         height := height imgRect |}
  | _, _ => {| left := 0; top := 0; width := 1; height := 1 |}
  end.

(** [toNorm(clientX, clientY)] *)
Definition toNorm (L : Layout) (clientX clientY : number) : Point :=
  match containerRef L with
  | None => {| pt_x := 0; pt_y := 0 |}
  | Some rect =>
      let x := (clientX - left rect)%js in
      let y := (clientY - top rect)%js in
      let d := imageDims L in
      {| pt_x := Math_max 0 (Math_min 1 ((x - left d) / width d)%js);
         pt_y := Math_max 0 (Math_min 1 ((y - top d) / height d)%js) |}
  end.

(** [fromNorm(x, y)] *)
Definition fromNorm (L : Layout) (x y : number) : Point :=
  let d := imageDims L in
  {| pt_x := (left d + x * width d)%js;
     pt_y := (top d + y * height d)%js |}.

(** [distanceToLine(px, py, x1, y1, x2, y2)] *)
Definition distanceToLine (px py x1 y1 x2 y2 : number) : number :=
  let A := (px - x1)%js in
  let B := (py - y1)%js in
  let C := (x2 - x1)%js in
  let D := (y2 - y1)%js in
  let dot := (A * C + B * D)%js in
  let lenSq := (C * C + D * D)%js in
  let param := if strict_neq lenSq 0 then (dot / lenSq)%js else Num (-1) in
  let '(xx, yy) :=
    if (param <? 0)%js then (x1, y1)
    else if (param >? 1)%js then (x2, y2)
    else ((x1 + param * C)%js, (y1 + param * D)%js) in
  let dx := (px - xx)%js in
  let dy := (py - yy)%js in
  Math_sqrt (dx * dx + dy * dy)%js.

(* ================================================================== *)
(** ** Annotation model *)

Inductive ToolType : Type := select | pen | rect | arrow | text | erase.

Definition ToolType_eqb (t u : ToolType) : bool :=
  match t, u with
  | select, select | pen, pen | rect, rect
  | arrow, arrow | text, text | erase, erase => true
  | _, _ => false
  end.

(** The attributes shared by every annotation ([BaseAnnotation] without
    the [type] tag, which is the constructor of [Annotation]). *)
Record BaseAnnotation : Type := mkBase {
  b_id : string;
  b_color : string;
  b_size : number;
  b_linkedFieldId : option string
}.

Inductive Annotation : Type :=
| PenAnnotation (b : BaseAnnotation) (points : list Point)
    (opacity : option number)
| RectAnnotation (b : BaseAnnotation) (x y w h : number)
| ArrowAnnotation (b : BaseAnnotation) (x1 y1 x2 y2 : number)
| TextAnnotation (b : BaseAnnotation) (x y : number) (txt : string).

Definition base_of (a : Annotation) : BaseAnnotation :=
  match a with
  | PenAnnotation b _ _ | RectAnnotation b _ _ _ _
  | ArrowAnnotation b _ _ _ _ | TextAnnotation b _ _ _ => b
  end.

(** [a.id] *)
Definition ann_id (a : Annotation) : string := b_id (base_of a).

(** JavaScript truthiness of a [string | null | undefined]. *)
Definition truthy (o : option string) : bool :=
  match o with
  | Some s => negb (String.eqb s "")
  | None => false
  end.

(** [o === id] for a nullable string [o]. *)
Definition opt_is (o : option string) (i : string) : bool :=
  match o with
  | Some s => String.eqb s i
  | None => false
  end.

(* ================================================================== *)
(** ** Editor session *)

(** The in-progress draw payload ([drawing] state). *)
Record Drawing : Type := mkDrawing {
  d_type : ToolType;
  startX : number;
  startY : number;
  d_points : option (list Point);
  currentX : option number;
  currentY : option number
}.

Inductive DragMode : Type := move | resizeRect | arrowStart | arrowEnd.
Inductive Corner : Type := nw | ne | sw | se.

(** The contents of [dragRef.current]. *)
Record DragRef : Type := mkDragRef {
  mode : DragMode;
  dr_id : string;
  corner : option Corner;
  prevX : number;
  prevY : number
}.

(** The props [baseImage] and [annotations] (owned by the parent and
    replaced through [onBaseImageChange] and [onChange]) together with the
    component's own state. *)
Record State : Type := mkState {
  baseImage : option string;
  annotations : list Annotation;
  tool : ToolType;
  color : string;
  size : number;
  selectedId : option string;
  editingTextId : option string;
  drawing : option Drawing;
  undoStack : list (list Annotation);
  redoStack : list (list Annotation);
  isDragging : bool;
  dragRef : option DragRef
}.

(** The setters. [onChange] and [onBaseImageChange] replace the props. *)
Definition onChange (v : list Annotation) (s : State) : State :=
  mkState (baseImage s) v (tool s) (color s) (size s) (selectedId s)
    (editingTextId s) (drawing s) (undoStack s) (redoStack s)
    (isDragging s) (dragRef s).
Definition onBaseImageChange (v : option string) (s : State) : State :=
  mkState v (annotations s) (tool s) (color s) (size s) (selectedId s)
    (editingTextId s) (drawing s) (undoStack s) (redoStack s)
    (isDragging s) (dragRef s).
Definition setSelectedId (v : option string) (s : State) : State :=
  mkState (baseImage s) (annotations s) (tool s) (color s) (size s) v
    (editingTextId s) (drawing s) (undoStack s) (redoStack s)
    (isDragging s) (dragRef s).
Definition setEditingTextId (v : option string) (s : State) : State :=
  mkState (baseImage s) (annotations s) (tool s) (color s) (size s)
    (selectedId s) v (drawing s) (undoStack s) (redoStack s)
    (isDragging s) (dragRef s).
Definition setDrawing (v : option Drawing) (s : State) : State :=
  mkState (baseImage s) (annotations s) (tool s) (color s) (size s)
    (selectedId s) (editingTextId s) v (undoStack s) (redoStack s)
    (isDragging s) (dragRef s).
Definition setUndoStack (v : list (list Annotation)) (s : State) : State :=
  mkState (baseImage s) (annotations s) (tool s) (color s) (size s)
    (selectedId s) (editingTextId s) (drawing s) v (redoStack s)
    (isDragging s) (dragRef s).
Definition setRedoStack (v : list (list Annotation)) (s : State) : State :=
  mkState (baseImage s) (annotations s) (tool s) (color s) (size s)
    (selectedId s) (editingTextId s) (drawing s) (undoStack s) v
    (isDragging s) (dragRef s).
Definition setIsDragging (v : bool) (s : State) : State :=
  mkState (baseImage s) (annotations s) (tool s) (color s) (size s)
    (selectedId s) (editingTextId s) (drawing s) (undoStack s)
    (redoStack s) v (dragRef s).
Definition setDragRef (v : option DragRef) (s : State) : State :=
  mkState (baseImage s) (annotations s) (tool s) (color s) (size s)
    (selectedId s) (editingTextId s) (drawing s) (undoStack s)
    (redoStack s) (isDragging s) v.
Definition setTool (v : ToolType) (s : State) : State :=
  mkState (baseImage s) (annotations s) v (color s) (size s)
    (selectedId s) (editingTextId s) (drawing s) (undoStack s)
    (redoStack s) (isDragging s) (dragRef s).

(* ================================================================== *)
(** ** History manager *)

(** Every handler reads [annotations], [undoStack] and [redoStack] of the
    render it was created in, that is of the state [s] it is applied to. *)

Definition pushHistory (next : list Annotation) (s : State) : State :=
  onChange next
    (setRedoStack [] (setUndoStack (undoStack s ++ [annotations s]) s)).

Definition undo (s : State) : State :=
  match undoStack s with
  | [] => s
  | _ :: _ =>
      let prev := last (undoStack s) [] in
      setUndoStack (removelast (undoStack s))
        (onChange prev (setRedoStack (redoStack s ++ [annotations s]) s))
  end.

Definition redo (s : State) : State :=
  match redoStack s with
  | [] => s
  | _ :: _ =>
      let next := last (redoStack s) [] in
      setRedoStack (removelast (redoStack s))
        (onChange next (setUndoStack (undoStack s ++ [annotations s]) s))
  end.

Definition clearAll (s : State) : State :=
  match annotations s with
  | [] => s
  | _ :: _ => setEditingTextId None (setSelectedId None (pushHistory [] s))
  end.

Definition removeImage (s : State) : State :=
  setEditingTextId None
    (setSelectedId None (pushHistory [] (onBaseImageChange None s))).

(** The [onChange] handler of the image file input. [file] is
    [e.target.files?.[0]] paired with the outcome of reading it:
    [Some data] when [dataUrlFromFile] resolves, [None] when it rejects. *)
Definition onImageFileChange (file : option (option string)) (s : State)
  : State :=
  match file with
  | None => s
  | Some None => s
  | Some (Some data) =>
      setEditingTextId None
        (setSelectedId None (onChange [] (onBaseImageChange (Some data) s)))
  end.

(* ================================================================== *)
(** ** Hit-testing engine *)

(** [tolerance] in [getAnnotationAt]: 2% of the normalized space. *)
Definition tolerance : number := 0.02.

(** The inner loop over the consecutive point pairs of a pen stroke,
    [j = 0 .. points.length - 2]. *)
Fixpoint penHit (norm : Point) (points : list Point) : bool :=
  match points with
  | p :: (q :: _) as rest =>
      if (distanceToLine (pt_x norm) (pt_y norm)
            (pt_x p) (pt_y p) (pt_x q) (pt_y q) <? tolerance)%js
      then true
      else penHit norm rest
  | _ => false
  end.

(** The body of the loop of [getAnnotationAt]: does annotation [a] make
    the loop return [a.id]? *)
Definition hits (norm : Point) (a : Annotation) : bool :=
  match a with
  | RectAnnotation _ x y w h =>
      (pt_x norm >=? x - tolerance)%js &&
      (pt_x norm <=? x + w + tolerance)%js &&
      (pt_y norm >=? y - tolerance)%js &&
      (pt_y norm <=? y + h + tolerance)%js
  | TextAnnotation _ x y _ =>
      (Math_abs (pt_x norm - x) <? tolerance)%js &&
      (Math_abs (pt_y norm - y) <? tolerance)%js
  | ArrowAnnotation _ x1 y1 x2 y2 =>
      (distanceToLine (pt_x norm) (pt_y norm) x1 y1 x2 y2 <? tolerance)%js
  | PenAnnotation _ points _ => penHit norm points
  end.

(** The loop [for (let i = n - 1; i >= 0; i--)], with [n] the number of
    indices still to visit. *)
Fixpoint hitLoop (norm : Point) (anns : list Annotation) (n : nat)
  : option string :=
  match n with
  | O => None
  | S i =>
      match nth_error anns i with
      | Some a => if hits norm a then Some (ann_id a) else hitLoop norm anns i
      | None => hitLoop norm anns i
      end
  end.

(** [getAnnotationAt(clientX, clientY)] *)
Definition getAnnotationAt (L : Layout) (anns : list Annotation)
    (clientX clientY : number) : option string :=
  let norm := toNorm L clientX clientY in
  hitLoop norm anns (List.length anns).

(* ================================================================== *)
(** ** Array helpers *)

(** [l.findIndex(f)], with [None] for [-1]. *)
Fixpoint findIndex {A : Type} (f : A -> bool) (l : list A) : option nat :=
  match l with
  | [] => None
  | a :: l' =>
      if f a then Some O
      else match findIndex f l' with
           | Some i => Some (S i)
           | None => None
           end
  end.

(** [next = [...l]; next[idx] = v] for an index inside the array. *)
Fixpoint setAt {A : Type} (idx : nat) (v : A) (l : list A) : list A :=
  match l, idx with
  | [], _ => []
  | _ :: l', O => v :: l'
  | a :: l', S i => a :: setAt i v l'
  end.

Definition has_id (i : string) (a : Annotation) : bool :=
  String.eqb (ann_id a) i.

(** [annotations.filter(a => a.id !== i)] *)
Definition removeById (i : string) (anns : list Annotation)
  : list Annotation :=
  filter (fun a => negb (has_id i a)) anns.

(* ================================================================== *)
(** ** Mutation rules *)

(** The computation of [updated] in the dragging branch of
    [onPointerMove], for the annotation [a] found under [dr.id]. *)
Definition dragUpdate (dr : DragRef) (norm : Point) (a : Annotation)
  : Annotation :=
  let dx := (pt_x norm - prevX dr)%js in
  let dy := (pt_y norm - prevY dr)%js in
  match mode dr, a with
  | move, RectAnnotation b x y w h =>
      RectAnnotation b (clamp (x + dx) 0 (1 - w)) (clamp (y + dy) 0 (1 - h))
        w h
  | move, ArrowAnnotation b x1 y1 x2 y2 =>
      ArrowAnnotation b
        (clamp (x1 + dx) 0 1) (clamp (y1 + dy) 0 1)
        (clamp (x2 + dx) 0 1) (clamp (y2 + dy) 0 1)
  | move, TextAnnotation b x y t =>
      TextAnnotation b (clamp (x + dx) 0 1) (clamp (y + dy) 0 1) t
  | move, PenAnnotation b points o =>
      PenAnnotation b
        (map (fun p => {| pt_x := clamp (pt_x p + dx) 0 1;
                          pt_y := clamp (pt_y p + dy) 0 1 |}) points) o
  | resizeRect, RectAnnotation b x y w h =>
      match corner dr with
      | Some nw =>
          let nx := clamp (pt_x norm) 0 (x + w) in
          let ny := clamp (pt_y norm) 0 (y + h) in
          RectAnnotation b nx ny ((x + w) - nx) ((y + h) - ny)
      | Some ne =>
          let ny := clamp (pt_y norm) 0 (y + h) in
          RectAnnotation b x ny
            (clamp (pt_x norm - x) 0 (1 - x)) ((y + h) - ny)
      | Some sw =>
          let nx := clamp (pt_x norm) 0 (x + w) in
          RectAnnotation b nx y
            ((x + w) - nx) (clamp (pt_y norm - y) 0 (1 - y))
      | Some se =>
          RectAnnotation b x y
            (clamp (pt_x norm - x) 0 (1 - x))
            (clamp (pt_y norm - y) 0 (1 - y))
      | None => RectAnnotation b x y w h
      end
  | arrowStart, ArrowAnnotation b x1 y1 x2 y2 =>
      ArrowAnnotation b (clamp (pt_x norm) 0 1) (clamp (pt_y norm) 0 1) x2 y2
  | arrowEnd, ArrowAnnotation b x1 y1 x2 y2 =>
      ArrowAnnotation b x1 y1 (clamp (pt_x norm) 0 1) (clamp (pt_y norm) 0 1)
  | _, _ => a
  end.

(** A [Partial<Annotation>] as the callers of [updateSelectedAnnotation]
    build it: any of [text], [color], [size], [linkedFieldId]. *)
Record Partial : Type := mkPartial {
  p_text : option string;
  p_color : option string;
  p_size : option number;
  p_linkedFieldId : option (option string)
}.

Definition or_else {A : Type} (o : option A) (d : A) : A :=
  match o with Some v => v | None => d end.

(** [{ ...a, ...partial }] *)
Definition spread (a : Annotation) (p : Partial) : Annotation :=
  let b := base_of a in
  let b' := {| b_id := b_id b;
               b_color := or_else (p_color p) (b_color b);
               b_size := or_else (p_size p) (b_size b);
               b_linkedFieldId :=
                 or_else (p_linkedFieldId p) (b_linkedFieldId b) |} in
  match a with
  | PenAnnotation _ pts o => PenAnnotation b' pts o
  | RectAnnotation _ x y w h => RectAnnotation b' x y w h
  | ArrowAnnotation _ x1 y1 x2 y2 => ArrowAnnotation b' x1 y1 x2 y2
  | TextAnnotation _ x y t => TextAnnotation b' x y (or_else (p_text p) t)
  end.

(* ================================================================== *)
(** ** Interaction state machine *)

Record PointerEvent : Type := mkPointerEvent {
  clientX : number;
  clientY : number
}.

(** The handle test of the select branch of [onPointerDown]: which drag
    the gesture starts on the hit annotation [a]. [(move, None)] is the
    [!started] case. *)
Definition pickDrag (L : Layout) (localX localY : number) (a : Annotation)
  : DragMode * option Corner :=
  let near (hx hy : number) : bool :=
    (Math_hypot (hx - localX) (hy - localY) <? 10)%js in
  match a with
  | RectAnnotation _ x y w h =>
      let p1 := fromNorm L x y in
      let p2 := fromNorm L (x + w) (y + h) in
      let handles :=
        [ (nw, pt_x p1, pt_y p1); (ne, pt_x p2, pt_y p1);
          (sw, pt_x p1, pt_y p2); (se, pt_x p2, pt_y p2) ] in
      match find (fun hd => near (snd (fst hd)) (snd hd)) handles with
      | Some hit => (resizeRect, Some (fst (fst hit)))
      | None => (move, None)
      end
  | ArrowAnnotation _ x1 y1 x2 y2 =>
      let p1 := fromNorm L x1 y1 in
      let p2 := fromNorm L x2 y2 in
      if near (pt_x p1) (pt_y p1) then (arrowStart, None)
      else if near (pt_x p2) (pt_y p2) then (arrowEnd, None)
      else (move, None)
  | _ => (move, None)
  end.

(** [onPointerDown(e)]. [newId] is the identifier that the text branch
    draws from [Date.now()] and [Math.random()]. Where the source would
    throw on a [null] dereference the handler stops with the updates made
    so far. *)
Definition onPointerDown (L : Layout) (newId : string) (e : PointerEvent)
    (s : State) : State :=
  if negb (truthy (baseImage s)) then s else
  let norm := toNorm L (clientX e) (clientY e) in
  match tool s with
  | select =>
      let hitId := getAnnotationAt L (annotations s) (clientX e) (clientY e) in
      match hitId with
      | Some h =>
          if negb (String.eqb h "") then
            let s1 := setSelectedId (Some h) s in
            match find (has_id h) (annotations s), containerRef L with
            | Some a, Some crect =>
                let localX := (clientX e - left crect)%js in
                let localY := (clientY e - top crect)%js in
                let '(m, c) := pickDrag L localX localY a in
                let s2 :=
                  setDragRef
                    (Some {| mode := m; dr_id := h; corner := c;
                             prevX := pt_x norm; prevY := pt_y norm |}) s1 in
                let s3 := setIsDragging true s2 in
                let s4 :=
                  match a with
                  | TextAnnotation _ _ _ _ => setEditingTextId (Some h) s3
                  | _ => s3
                  end in
                setRedoStack []
                  (setUndoStack (undoStack s ++ [annotations s]) s4)
            | _, _ => s1
            end
          else setEditingTextId None (setSelectedId None s)
      | None => setEditingTextId None (setSelectedId None s)
      end
  | pen =>
      setDrawing
        (Some {| d_type := pen; startX := pt_x norm; startY := pt_y norm;
                 d_points := Some [norm];
                 currentX := None; currentY := None |}) s
  | rect =>
      setDrawing
        (Some {| d_type := rect; startX := pt_x norm; startY := pt_y norm;
                 d_points := None;
                 currentX := Some (pt_x norm);
                 currentY := Some (pt_y norm) |}) s
  | arrow =>
      setDrawing
        (Some {| d_type := arrow; startX := pt_x norm; startY := pt_y norm;
                 d_points := None;
                 currentX := Some (pt_x norm);
                 currentY := Some (pt_y norm) |}) s
  | text =>
      let newAnn :=
        TextAnnotation
          {| b_id := newId; b_color := color s; b_size := size s;
             b_linkedFieldId := None |}
          (pt_x norm) (pt_y norm) "Click to edit" in
      setEditingTextId (Some newId)
        (setSelectedId (Some newId)
           (pushHistory (annotations s ++ [newAnn]) s))
  | erase =>
      let hitId := getAnnotationAt L (annotations s) (clientX e) (clientY e) in
      match hitId with
      | Some h =>
          if negb (String.eqb h "") then
            let next := removeById h (annotations s) in
            let s1 := pushHistory next s in
            if opt_is (selectedId s) h
            then setEditingTextId None (setSelectedId None s1)
            else s1
          else s
      | None => s
      end
  end.

(** [onPointerMove(e)] *)
Definition onPointerMove (L : Layout) (e : PointerEvent) (s : State)
  : State :=
  if negb (truthy (baseImage s)) then s else
  let norm := toNorm L (clientX e) (clientY e) in
  match drawing s with
  | Some d =>
      match d_type d with
      | pen =>
          setDrawing
            (Some {| d_type := d_type d; startX := startX d;
                     startY := startY d;
                     d_points := Some (or_else (d_points d) [] ++ [norm]);
                     currentX := currentX d; currentY := currentY d |}) s
      | rect | arrow =>
          setDrawing
            (Some {| d_type := d_type d; startX := startX d;
                     startY := startY d; d_points := d_points d;
                     currentX := Some (pt_x norm);
                     currentY := Some (pt_y norm) |}) s
      | _ => s
      end
  | None =>
      if isDragging s && truthy (selectedId s) && ToolType_eqb (tool s) select
      then
        match dragRef s with
        | Some dr =>
            match findIndex (has_id (dr_id dr)) (annotations s) with
            | Some idx =>
                match nth_error (annotations s) idx with
                | Some a =>
                    let updated := dragUpdate dr norm a in
                    let next := setAt idx updated (annotations s) in
                    setDragRef
                      (Some {| mode := mode dr; dr_id := dr_id dr;
                               corner := corner dr;
                               prevX := pt_x norm; prevY := pt_y norm |})
                      (onChange next s)
                | None => s
                end
            | None => s
            end
        | None => s
        end
      else s
  end.

(** The three commits of [onPointerUp]; [newId] as in [onPointerDown]. *)
Definition freshBase (newId : string) (s : State) : BaseAnnotation :=
  {| b_id := newId; b_color := color s; b_size := size s;
     b_linkedFieldId := None |}.

Definition commitNew (newAnn : Annotation) (s : State) : State :=
  setSelectedId (Some (ann_id newAnn))
    (pushHistory (annotations s ++ [newAnn]) s).

(** The [if (drawing) { ... }] block of [onPointerUp]. *)
Definition finishDrawing (newId : string) (d : Drawing) (s : State)
  : State :=
  match d_type d, d_points d, currentX d, currentY d with
  | pen, Some pts, _, _ =>
      if (1 <? List.length pts)%nat
      then commitNew (PenAnnotation (freshBase newId s) pts None) s
      else s
  | rect, _, Some cx, Some cy =>
      let x := Math_min (startX d) cx in
      let y := Math_min (startY d) cy in
      let w := Math_abs (cx - startX d) in
      let h := Math_abs (cy - startY d) in
      if (w >? 0.01)%js && (h >? 0.01)%js
      then commitNew (RectAnnotation (freshBase newId s) x y w h) s
      else s
  | arrow, _, Some cx, Some cy =>
      let distance :=
        Math_sqrt (Math_pow2 (cx - startX d) + Math_pow2 (cy - startY d)) in
      if (distance >? 0.02)%js
      then commitNew
             (ArrowAnnotation (freshBase newId s)
                (startX d) (startY d) cx cy) s
      else s
  | _, _, _, _ => s
  end.

(** [onPointerUp(e)] *)
Definition onPointerUp (L : Layout) (newId : string) (e : PointerEvent)
    (s : State) : State :=
  if negb (truthy (baseImage s)) then s else
  let s1 :=
    match drawing s with
    | Some d => finishDrawing newId d s
    | None => s
    end in
  setDragRef None (setIsDragging false (setDrawing None s1)).

(** [updateSelectedAnnotation(partial)] *)
Definition updateSelectedAnnotation (p : Partial) (s : State) : State :=
  match selectedId s with
  | Some sid =>
      if negb (String.eqb sid "") then
        match findIndex (has_id sid) (annotations s) with
        | Some idx =>
            match nth_error (annotations s) idx with
            | Some a => pushHistory (setAt idx (spread a p) (annotations s)) s
            | None => s
            end
        | None => s
        end
      else s
  | None => s
  end.

(** [removeSelected()] *)
Definition removeSelected (s : State) : State :=
  match selectedId s with
  | Some sid =>
      if negb (String.eqb sid "") then
        setEditingTextId None
          (setSelectedId None
             (pushHistory (removeById sid (annotations s)) s))
      else s
  | None => s
  end.

(** The delete button of a row of the annotation list, for the row of the
    annotation with identifier [i]. *)
Definition removeFromList (i : string) (s : State) : State :=
  let s1 := pushHistory (removeById i (annotations s)) s in
  if opt_is (selectedId s) i
  then setEditingTextId None (setSelectedId None s1)
  else s1.

(* ================================================================== *)
(** ** The initial session and the user's actions *)

(** The state of a freshly mounted component: the [useState] defaults,
    around whatever props the parent passes. *)
Definition init (img : option string) (anns : list Annotation) : State :=
  {| baseImage := img; annotations := anns; tool := select;
     color := "#e11d48"; size := 3; selectedId := None;
     editingTextId := None; drawing := None; undoStack := [];
     redoStack := []; isDragging := false; dragRef := None |}.

(** What the user can do to the annotation set and its history, besides
    undo and redo. *)
Inductive Action : Type :=
| PointerDown (L : Layout) (newId : string) (e : PointerEvent)
| PointerMove (L : Layout) (e : PointerEvent)
| PointerUp (L : Layout) (newId : string) (e : PointerEvent)
| ClearAll
| RemoveImage
| RemoveSelected
| RemoveFromList (i : string)
| UpdateSelected (p : Partial)
| LoadImage (file : option (option string))
| PickTool (t : ToolType)
| Select (i : option string).

Definition perform (s : State) (a : Action) : State :=
  match a with
  | PointerDown L newId e => onPointerDown L newId e s
  | PointerMove L e => onPointerMove L e s
  | PointerUp L newId e => onPointerUp L newId e s
  | ClearAll => clearAll s
  | RemoveImage => removeImage s
  | RemoveSelected => removeSelected s
  | RemoveFromList i => removeFromList i s
  | UpdateSelected p => updateSelectedAnnotation p s
  | LoadImage file => onImageFileChange file s
  | PickTool t => setTool t s
  | Select i => setSelectedId i s
  end.

Definition performAll (s : State) (acts : list Action) : State :=
  fold_left perform acts s.

(* ================================================================== *)
(** ** Vocabulary of the properties *)

(** How one step can relate the history of [s] to that of [s']. *)
Definition kept (s s' : State) : Prop :=
  annotations s' = annotations s /\
  undoStack s' = undoStack s /\
  redoStack s' = redoStack s.

Definition pushed (s s' : State) : Prop :=
  undoStack s' = undoStack s ++ [annotations s] /\
  redoStack s' = [].

Definition committed (a : Annotation) (s s' : State) : Prop :=
  annotations s' = annotations s ++ [a] /\ pushed s s'.

Definition moveAll (moves : list (Layout * PointerEvent)) (s : State)
  : State :=
  fold_left (fun st m => onPointerMove (fst m) (snd m) st) moves s.

(** A whole gesture: pointer-down, any number of pointer-moves,
    pointer-up. *)
Definition gesture (down : Layout * PointerEvent)
    (moves : list (Layout * PointerEvent)) (up : Layout * PointerEvent)
    (newId : string) (s : State) : State :=
  onPointerUp (fst up) newId (snd up)
    (moveAll moves (onPointerDown (fst down) newId (snd down) s)).

Definition unit_point (p : Point) : Prop :=
  within 0 1 (pt_x p) /\ within 0 1 (pt_y p).

Definition finite_point (p : Point) : Prop :=
  exists x y : R, p = {| pt_x := x; pt_y := y |}.

(** The annotations of the data model: every coordinate is an ordinary
    number, and a rectangle's width and height lie in [[0,1]]. *)
Inductive well_formed : Annotation -> Prop :=
| wf_pen b pts o :
    Forall finite_point pts -> well_formed (PenAnnotation b pts o)
| wf_rect b (x y w h : R) :
    0 <= w <= 1 -> 0 <= h <= 1 ->
    well_formed (RectAnnotation b x y w h)
| wf_arrow b (x1 y1 x2 y2 : R) :
    well_formed (ArrowAnnotation b x1 y1 x2 y2)
| wf_text b (x y : R) t :
    well_formed (TextAnnotation b x y t).

(** Every positional coordinate lies in [[0,1]], and a rectangle lies
    inside the unit square as a whole. *)
Definition in_bounds (a : Annotation) : Prop :=
  match a with
  | PenAnnotation _ pts _ => Forall unit_point pts
  | RectAnnotation _ x y w h =>
      exists xr yr wr hr : R,
        x = Num xr /\ y = Num yr /\ w = Num wr /\ h = Num hr /\
        0 <= xr <= 1 - wr /\ 0 <= yr <= 1 - hr /\
        xr <= 1 /\ yr <= 1 /\ xr + wr <= 1 /\ yr + hr <= 1
  | ArrowAnnotation _ x1 y1 x2 y2 =>
      within 0 1 x1 /\ within 0 1 y1 /\ within 0 1 x2 /\ within 0 1 y2
  | TextAnnotation _ x y _ => within 0 1 x /\ within 0 1 y
  end.

(* ================================================================== *)
(** ** Example sessions *)

(** A laid-out container whose image element has not been given a size
    yet: an 800x600 container with a zero-size image box at (400, 2). *)
Definition unsizedImage : Layout :=
  {| containerRef := Some (mkDOMRect 0 0 800 600);
     imgRef := Some (mkDOMRect 400 2 0 0) |}.

(** A session on an 800x600 image that fills its container. *)
Definition plainLayout : Layout :=
  {| containerRef := Some (mkDOMRect 0 0 800 600);
     imgRef := Some (mkDOMRect 0 0 800 600) |}.

Definition pointerAt (x y : R) : PointerEvent :=
  {| clientX := x; clientY := y |}.

Definition plainBase (i : string) : BaseAnnotation :=
  {| b_id := i; b_color := "#e11d48"; b_size := 3;
     b_linkedFieldId := None |}.

(** Two overlapping rectangles, [topRect] inserted after [bottomRect]. *)
Definition bottomRect : Annotation :=
  RectAnnotation (plainBase "bottom") 0.1 0.1 0.4 0.4.
Definition topRect : Annotation :=
  RectAnnotation (plainBase "top") 0.3 0.3 0.4 0.4.

(** Three text labels placed one after the other with the text tool. *)
Definition threeTexts : State :=
  performAll (init (Some "data:image/png;base64,AAAA"%string) [])
    [ PickTool text;
      PointerDown plainLayout "ann_1" (pointerAt 80 60);
      PointerDown plainLayout "ann_2" (pointerAt 400 300);
      PointerDown plainLayout "ann_3" (pointerAt 720 540) ].

(** A rectangle being dragged out from (0.1, 0.1) to (0.5, 0.5). *)
Definition drawingRect : State :=
  setDrawing
    (Some (mkDrawing rect 0.1 0.1 None (Some (Num 0.5)) (Some (Num 0.5))))
    (setTool rect (init (Some "data:image/png;base64,AAAA"%string) [])).

(** A session holding [bottomRect], with the select tool. *)
Definition oneRect : State :=
  init (Some "data:image/png;base64,AAAA"%string) [bottomRect].

(** An arrow above [bottomRect], in the middle of a drag of its end
    point. *)
Definition someArrow : Annotation :=
  ArrowAnnotation (plainBase "arrow") 0.2 0.2 0.6 0.6.
Definition draggingArrow : State :=
  setDragRef (Some (mkDragRef arrowEnd "arrow" None 0.6 0.6))
    (setIsDragging true
       (setSelectedId (Some "arrow"%string)
          (init (Some "data:image/png;base64,AAAA"%string)
             [bottomRect; someArrow]))).

(** [bottomRect] and [topRect], with [topRect] selected. *)
Definition twoRects : State :=
  setSelectedId (Some "top"%string)
    (init (Some "data:image/png;base64,AAAA"%string) [bottomRect; topRect]).

(* ================================================================== *)
(** ** Further vocabulary: histories and layouts *)

(** A run of commits, each replacing the set by the next element of
    [nexts]. *)
Definition commitAll (nexts : list (list Annotation)) (s : State) : State :=
  fold_left (fun st next => pushHistory next st) nexts s.

(** A layout in which both elements are mounted, every measure is an
    ordinary number and the image has a non-zero size. *)
Definition laid_out (L : Layout) : Prop :=
  exists cl ct cw chh il it iw ih : R,
    iw <> 0 /\ ih <> 0 /\
    L = {| containerRef := Some (mkDOMRect cl ct cw chh);
           imgRef := Some (mkDOMRect il it iw ih) |}.

(** The Euclidean distance between two points of the plane, and the
    point at parameter [t] of the segment from [(x1, y1)] to [(x2, y2)]. *)
Definition dist (px py qx qy : R) : R :=
  sqrt ((px - qx) * (px - qx) + (py - qy) * (py - qy)).

Definition along (x1 x2 t : R) : R := x1 + t * (x2 - x1).

(** An annotation whose coordinates are normalized: ordinary numbers of
    [[0,1]], and for a rectangle a box of non-negative size inside the unit
    square. *)
Definition normalized (a : Annotation) : Prop :=
  match a with
  | PenAnnotation _ pts _ => Forall unit_point pts
  | RectAnnotation _ x y w h =>
      exists xr yr wr hr : R,
        x = Num xr /\ y = Num yr /\ w = Num wr /\ h = Num hr /\
        0 <= xr /\ 0 <= yr /\ 0 <= wr /\ 0 <= hr /\
        xr + wr <= 1 /\ yr + hr <= 1
  | ArrowAnnotation _ x1 y1 x2 y2 =>
      within 0 1 x1 /\ within 0 1 y1 /\ within 0 1 x2 /\ within 0 1 y2
  | TextAnnotation _ x y _ => within 0 1 x /\ within 0 1 y
  end.

Definition sets_ok (l : list (list Annotation)) : Prop :=
  Forall (Forall normalized) l.

Definition drawing_ok (d : Drawing) : Prop :=
  within 0 1 (startX d) /\ within 0 1 (startY d) /\
  (forall pts, d_points d = Some pts -> Forall unit_point pts) /\
  (forall v, currentX d = Some v -> within 0 1 v) /\
  (forall v, currentY d = Some v -> within 0 1 v).

Definition dragRef_ok (dr : DragRef) : Prop :=
  exists px py : R, prevX dr = Num px /\ prevY dr = Num py.

(** A session all of whose stored coordinates are normalized: the current
    set, every snapshot of the two stacks, and the payloads of a drawing
    or a drag in progress. *)
Definition session_ok (s : State) : Prop :=
  Forall normalized (annotations s) /\
  sets_ok (undoStack s) /\
  sets_ok (redoStack s) /\
  (forall d, drawing s = Some d -> drawing_ok d) /\
  (forall dr, dragRef s = Some dr -> dragRef_ok dr).

Definition finite_event (e : PointerEvent) : Prop :=
  exists cx cy : R, e = {| clientX := cx; clientY := cy |}.

(** The pointer-downs and pointer-moves of an action happen on a laid-out
    image, at a pointer position that is a pair of ordinary numbers.
    (Pointer-up does not read its event.) *)
Definition on_laid_out_image (a : Action) : Prop :=
  match a with
  | PointerDown L _ e | PointerMove L e => laid_out L /\ finite_event e
  | _ => True
  end.

(** [a.type] *)
Definition ann_type (a : Annotation) : ToolType :=
  match a with
  | PenAnnotation _ _ _ => pen
  | RectAnnotation _ _ _ _ _ => rect
  | ArrowAnnotation _ _ _ _ _ => arrow
  | TextAnnotation _ _ _ _ => text
  end.

(** The identifiers of a set, in order. *)
Definition ids (anns : list Annotation) : list string := map ann_id anns.

(** The identifier an action would give to a new annotation is not in
    use. *)
Definition fresh_for (s : State) (a : Action) : Prop :=
  match a with
  | PointerDown _ newId _ | PointerUp _ newId _ =>
      ~ In newId (ids (annotations s))
  | _ => True
  end.

(** Two annotations with the same shape: the same variant with the same
    coordinates and points (the text of a label is an attribute that
    [updateSelectedAnnotation] may change, not part of its shape). *)
Definition same_geometry (a a' : Annotation) : Prop :=
  match a, a' with
  | PenAnnotation _ pts o, PenAnnotation _ pts' o' => pts = pts' /\ o = o'
  | RectAnnotation _ x y w h, RectAnnotation _ x' y' w' h' =>
      x = x' /\ y = y' /\ w = w' /\ h = h'
  | ArrowAnnotation _ x1 y1 x2 y2, ArrowAnnotation _ x1' y1' x2' y2' =>
      x1 = x1' /\ y1 = y1' /\ x2 = x2' /\ y2 = y2'
  | TextAnnotation _ x y _, TextAnnotation _ x' y' _ => x = x' /\ y = y'
  | _, _ => False
  end.

Definition is_pointer_action (a : Action) : Prop :=
  match a with
  | PointerDown _ _ _ | PointerMove _ _ | PointerUp _ _ _ => True
  | _ => False
  end.

(** The normalized position of a pointer event of a gesture. *)
Definition normOf (m : Layout * PointerEvent) : Point :=
  toNorm (fst m) (clientX (snd m)) (clientY (snd m)).

(* ================================================================== *)
(** ** Drawing a rectangle: live overlay and export *)

(** A box given by its corner and its size: the [x], [y], [width] and
    [height] attributes of an SVG [<rect>], or the arguments of
    [ctx.strokeRect]. *)
Record Box : Type := mkBox {
  box_x : number;
  box_y : number;
  box_w : number;
  box_h : number
}.

(** The [<rect>] that the overlay renders for a rectangle annotation. *)
Definition overlayRect (L : Layout) (x y w h : number) : Box :=
  let p := fromNorm L x y in
  let p2 := fromNorm L (x + w) (y + h) in
  {| box_x := pt_x p; box_y := pt_y p;
     box_w := (pt_x p2 - pt_x p)%js; box_h := (pt_y p2 - pt_y p)%js |}.

(** The [ctx.strokeRect(...)] call of [exportPNG] for a rectangle
    annotation, on a canvas of the image's natural size. *)
Definition exportRect (canvasWidth canvasHeight : number)
    (x y w h : number) : Box :=
  {| box_x := (x * canvasWidth)%js; box_y := (y * canvasHeight)%js;
     box_w := (w * canvasWidth)%js; box_h := (h * canvasHeight)%js |}.

(* ================================================================== *)
(** ** Case fields ([CaseFields]) and JSON export ([ExportPanel]) *)

Inductive FieldType : Type :=
| ft_text | ft_textarea | ft_number | ft_date
| ft_select | ft_multiselect | ft_checkbox.

Record FieldOption : Type := mkFieldOption {
  opt_label : string;
  opt_value : string
}.

Record FieldDefinition : Type := mkField {
  f_id : string;
  f_label : string;
  f_type : FieldType;
  f_required : option bool;
  f_placeholder : option string;
  f_helpText : option string;
  f_options : option (list FieldOption);
  f_min : option number;
  f_max : option number;
  f_step : option number;
  f_unit : option string;
  f_sensitive : option bool
}.

(** [string | number | boolean | string[] | null | undefined] *)
Inductive FieldValue : Type :=
| FVString (v : string)
| FVNumber (v : number)
| FVBoolean (v : bool)
| FVArray (v : list string)
| FVNull
| FVUndefined.

(** The direction of a move: [-1] or [1]. *)
Inductive Dir : Type := minus_one | plus_one.

(** [copy.splice(idx, 1)]: what is left of the array. *)
Definition removeAt {A : Type} (idx : nat) (l : list A) : list A :=
  firstn idx l ++ skipn (S idx) l.

(** [copy.splice(idx, 0, v)] *)
Definition insertAt {A : Type} (idx : nat) (v : A) (l : list A) : list A :=
  firstn idx l ++ v :: skipn idx l.

Definition field_has_id (i : string) (f : FieldDefinition) : bool :=
  String.eqb (f_id f) i.

Module Fields.

(** [move(id, dir)]: the array handed to [onChangeFields], or the fields
    as they are when the function returns early. *)
Definition move (fields : list FieldDefinition) (i : string) (dir : Dir)
  : list FieldDefinition :=
  match findIndex (field_has_id i) fields with
  | None => fields
  | Some idx =>
      let moved (newIndex : nat) :=
        match nth_error fields idx with
        | Some item => insertAt newIndex item (removeAt idx fields)
        | None => fields
        end in
      match dir with
      | minus_one =>
          match idx with
          | O => fields
          | S newIndex => moved newIndex
          end
      | plus_one =>
          if (List.length fields <=? idx + 1)%nat then fields
          else moved (idx + 1)%nat
      end
  end.

(** [remove(id)] *)
Definition remove (fields : list FieldDefinition) (i : string)
  : list FieldDefinition :=
  filter (fun f => negb (field_has_id i f)) fields.

(** [arr.includes(v)] *)
Definition includes (v : string) (arr : list string) : bool :=
  existsb (String.eqb v) arr.

(** The click on an option of a multiselect field: [value] is the
    field's current value, absent when it was never set. *)
Definition toggleOption (value : option (list string)) (v : string)
  : list string :=
  let arr := or_else value [] in
  if includes v arr
  then filter (fun x => negb (String.eqb x v)) arr
  else arr ++ [v].

(** [onCheckedChange(c)] of the switch of an option of a checkbox field. *)
Definition switchOption (value : option (list string)) (v : string)
    (c : bool) : list string :=
  let arr := or_else value [] in
  if c then arr ++ [v]
  else filter (fun x => negb (String.eqb x v)) arr.

End Fields.

Record CaseSheetData : Type := mkCaseSheetData {
  specialization : string;
  templateId : string;
  cs_fields : list FieldDefinition;
  cs_values : list (string * FieldValue);
  cs_baseImage : option string;
  cs_annotations : list Annotation;
  lastUpdated : number
}.

Module ExportPanel.

(** [!caseData.fields.find((f) => f.id === id)?.sensitive] *)
Definition notSensitive (fields : list FieldDefinition) (i : string) : bool :=
  match find (field_has_id i) fields with
  | Some f =>
      match f_sensitive f with
      | Some true => false
      | _ => true
      end
  | None => true
  end.

(** The payload of [downloadJSON]. [cs_values] lists the entries of the
    [values] object as [Object.entries] enumerates them; [now] is
    [Date.now()]. *)
Definition payload (includeSensitive includeImage includeAnnotations : bool)
    (now : number) (caseData : CaseSheetData) : CaseSheetData :=
  {| specialization := specialization caseData;
     templateId := templateId caseData;
     cs_fields := map (fun f => f) (cs_fields caseData);
     cs_values :=
       filter (fun entry =>
                 includeSensitive
                 || notSensitive (cs_fields caseData) (fst entry))
         (cs_values caseData);
     cs_baseImage :=
       if includeImage then cs_baseImage caseData else None;
     cs_annotations :=
       if includeAnnotations then cs_annotations caseData else [];
     lastUpdated := now |}.

End ExportPanel.

(** Three fields to reorder. *)
Definition plainField (i : string) (sensitive : option bool)
  : FieldDefinition :=
  {| f_id := i; f_label := i; f_type := ft_text; f_required := None;
     f_placeholder := None; f_helpText := None; f_options := None;
     f_min := None; f_max := None; f_step := None; f_unit := None;
     f_sensitive := sensitive |}.

Definition fieldName : FieldDefinition := plainField "patient_name" (Some true).
Definition fieldAge : FieldDefinition := plainField "age" (Some true).
Definition fieldSymptoms : FieldDefinition := plainField "symptoms" None.

(* ================================================================== *)
(** * Properties *)

(* ================================================================== *)
(** ** Arithmetic on finite numbers *)

(** The operations are unfolded on demand only. *)
Arguments add : simpl never.
Arguments sub : simpl never.
Arguments mul : simpl never.
Arguments div : simpl never.
Arguments lt : simpl never.
Arguments le : simpl never.
Arguments gt : simpl never.
Arguments ge : simpl never.
Arguments strict_neq : simpl never.
Arguments Math_max : simpl never.
Arguments Math_min : simpl never.
Arguments Math_abs : simpl never.
Arguments Math_sqrt : simpl never.
Arguments Math_pow2 : simpl never.
Arguments Math_hypot : simpl never.

Lemma add_Num (a b : R) : (Num a + Num b)%js = Num (a + b).
Proof. reflexivity. Qed.

Lemma sub_Num (a b : R) : (Num a - Num b)%js = Num (a - b).
Proof. reflexivity. Qed.

Lemma mul_Num (a b : R) : (Num a * Num b)%js = Num (a * b).
Proof. reflexivity. Qed.

Lemma div_Num_nonzero (a b : R) : b <> 0 -> (Num a / Num b)%js = Num (a / b).
Proof.
  intros Hb. unfold div, Reqb. destruct (Req_dec_T b 0); [contradiction|].
  reflexivity.
Qed.

Lemma div_zero_zero : (Num 0 / Num 0)%js = NaN.
Proof.
  unfold div, Reqb. destruct (Req_dec_T 0 0) as [_|n]; [reflexivity|].
  exfalso; apply n; reflexivity.
Qed.

Lemma lt_Num (a b : R) : (Num a <? Num b)%js = true <-> a < b.
Proof.
  unfold lt, Rltb. destruct (Rlt_dec a b); split; intros; try assumption;
    try reflexivity; try discriminate; contradiction.
Qed.

Lemma gt_Num (a b : R) : (Num a >? Num b)%js = true <-> b < a.
Proof. unfold gt. apply lt_Num. Qed.

Lemma le_Num (a b : R) : (Num a <=? Num b)%js = true <-> a <= b.
Proof.
  unfold le, Rleb. destruct (Rle_dec a b); split; intros; try assumption;
    try reflexivity; try discriminate; contradiction.
Qed.

Lemma ge_Num (a b : R) : (Num a >=? Num b)%js = true <-> b <= a.
Proof. unfold ge. apply le_Num. Qed.

Lemma Math_abs_Num (x : R) : Math_abs (Num x) = Num (Rabs x).
Proof. reflexivity. Qed.

Lemma Math_sqrt_Num (x : R) : 0 <= x -> Math_sqrt (Num x) = Num (sqrt x).
Proof.
  intros Hx. unfold Math_sqrt, Rltb. destruct (Rlt_dec x 0); [lra|].
  reflexivity.
Qed.

Lemma Math_pow2_Num (x : R) : Math_pow2 (Num x) = Num (x * x).
Proof. reflexivity. Qed.

Lemma sqrt_gt_iff (t x : R) :
  0 <= t -> 0 <= x -> (t < sqrt x <-> t * t < x).
Proof.
  intros Ht Hx. pose proof (sqrt_pos x) as Hp.
  pose proof (sqrt_sqrt x Hx) as Hs.
  split; intros H.
  - rewrite <- Hs. apply Rmult_le_0_lt_compat; lra.
  - destruct (Rlt_dec t (sqrt x)) as [Hlt|Hge]; [exact Hlt|].
    assert (sqrt x * sqrt x <= t * t)
      by (apply Rmult_le_compat; lra).
    lra.
Qed.

Lemma sum_sq_nonneg (a b : R) : 0 <= a * a + b * b.
Proof.
  pose proof (Rle_0_sqr a) as Ha. pose proof (Rle_0_sqr b) as Hb.
  unfold Rsqr in *. lra.
Qed.

Create Rewrite HintDb js.
#[export] Hint Rewrite add_Num sub_Num mul_Num Math_abs_Num Math_pow2_Num : js.

Ltac js_cases :=
  repeat match goal with
    | |- context [Rlt_dec ?a ?b] => destruct (Rlt_dec a b)
    | |- context [Rle_dec ?a ?b] => destruct (Rle_dec a b)
    | |- context [Req_dec_T ?a ?b] => destruct (Req_dec_T a b)
    end.

(** Clamping a finite value to a finite, non-empty range. *)
Lemma clamp_Num (v lo hi : R) :
  lo <= hi ->
  exists r, clamp v lo hi = Num r /\ lo <= r <= hi /\
            (lo <= v <= hi -> r = v).
Proof.
  intros Hle. unfold clamp, Math_max, Math_min, lt, Rltb.
  destruct (Rlt_dec v hi); destruct (Rlt_dec lo _);
    eexists; (split; [reflexivity | split; [lra | intros; lra]]).
Qed.

(** [Math.max(0, Math.min(1, v))] is [NaN] exactly when [v] is, and is a
    real in [[0,1]] otherwise. *)
Lemma clamp01_cases (v : number) :
  (v = NaN /\ Math_max 0 (Math_min 1 v) = NaN) \/
  (v <> NaN /\ within 0 1 (Math_max 0 (Math_min 1 v))).
Proof.
  destruct v as [r| | |]; [right | right | right | left; split; reflexivity];
    (split; [discriminate|]); unfold within, Math_max, Math_min, lt, Rltb; cbn.
  - destruct (Rlt_dec r 1); cbn; destruct (Rlt_dec 0 _); eexists; split;
      try reflexivity; lra.
  - destruct (Rlt_dec 0 1); eexists; split; try reflexivity; lra.
  - eexists; split; try reflexivity; lra.
Qed.

(* ================================================================== *)
(** ** Geometry *)

(** Outside the single indeterminate form [0 / 0], [toNorm] lands in the
    unit square; in particular it does on every box of non-zero size. *)
Lemma toNorm_in_unit_square (cl ct cw chh il it iw ih cx cy : R) :
  iw <> 0 -> ih <> 0 ->
  let L := {| containerRef := Some (mkDOMRect cl ct cw chh);
              imgRef := Some (mkDOMRect il it iw ih) |} in
  within 0 1 (pt_x (toNorm L cx cy)) /\ within 0 1 (pt_y (toNorm L cx cy)).
Proof.
  intros Hw Hh L. unfold toNorm, imageDims, L. cbn.
  autorewrite with js. rewrite !div_Num_nonzero by assumption.
  split.
  - destruct (clamp01_cases (Num ((cx - cl - (il - cl)) / iw)))
      as [[H _]|[_ H]]; [discriminate | exact H].
  - destruct (clamp01_cases (Num ((cy - ct - (it - ct)) / ih)))
      as [[H _]|[_ H]]; [discriminate | exact H].
Qed.

(** With either ref unset the fallbacks apply: the origin when there is no
    container, the unit box when there is no image. *)
Lemma toNorm_without_refs (L : Layout) (cx cy : R) :
  containerRef L = None \/ imgRef L = None ->
  (forall r, containerRef L = Some r -> exists l t w h,
      r = mkDOMRect (Num l) (Num t) w h) ->
  within 0 1 (pt_x (toNorm L cx cy)) /\ within 0 1 (pt_y (toNorm L cx cy)).
Proof.
  intros Hnone Hfin. unfold toNorm, imageDims.
  destruct (containerRef L) as [r|] eqn:Hc.
  - destruct Hnone as [H|H]; [discriminate|]. rewrite H.
    destruct (Hfin r eq_refl) as (l & t & w & h & ->). cbn.
    autorewrite with js. rewrite !div_Num_nonzero by lra.
    split.
    + destruct (clamp01_cases (Num ((cx - l - 0) / 1)))
        as [[H0 _]|[_ H0]]; [discriminate | exact H0].
    + destruct (clamp01_cases (Num ((cy - t - 0) / 1)))
        as [[H0 _]|[_ H0]]; [discriminate | exact H0].
  - cbn. split; exists 0; split; try reflexivity; lra.
Qed.

(** On [plainLayout] a pointer inside the image is normalized by plain
    division. *)
Lemma toNorm_plain (x y : R) :
  0 <= x <= 800 -> 0 <= y <= 600 ->
  toNorm plainLayout x y = {| pt_x := Num (x / 800); pt_y := Num (y / 600) |}.
Proof.
  intros Hx Hy. unfold toNorm, imageDims, plainLayout. cbn.
  autorewrite with js. rewrite !div_Num_nonzero by lra.
  destruct (clamp_Num ((x - 0 - (0 - 0)) / 800) 0 1) as (r1 & E1 & _ & K1);
    [lra|].
  destruct (clamp_Num ((y - 0 - (0 - 0)) / 600) 0 1) as (r2 & E2 & _ & K2);
    [lra|].
  unfold clamp in E1, E2. rewrite E1, E2, K1, K2 by lra.
  f_equal; f_equal; lra.
Qed.

(** Two evaluations of the helpers on ordinary inputs: the middle of the
    image, and a point one unit above the middle of a horizontal segment. *)
Example toNorm_center :
  toNorm plainLayout 400 300 = {| pt_x := Num 0.5; pt_y := Num 0.5 |}.
Proof.
  rewrite toNorm_plain by lra. f_equal; f_equal; lra.
Qed.

Example distanceToLine_perpendicular :
  distanceToLine 1 1 0 0 2 0 = Num 1.
Proof.
  unfold distanceToLine. autorewrite with js.
  unfold strict_neq, Reqb.
  destruct (Req_dec_T ((2 - 0) * (2 - 0) + (0 - 0) * (0 - 0)) 0) as [E|_];
    [lra|]. cbn [negb].
  rewrite div_Num_nonzero by lra.
  unfold gt, lt, Rltb.
  destruct (Rlt_dec _ 0) as [E|_]; [lra|].
  destruct (Rlt_dec 1 _) as [E|_]; [lra|].
  autorewrite with js. rewrite Math_sqrt_Num by apply sum_sq_nonneg.
  f_equal. etransitivity; [|apply sqrt_1]. f_equal. field.
Qed.

(** C3 (fails on the code): with a zero-size image box and the pointer on
    the box's origin, [toNorm] divides zero by zero and returns
    [{x: NaN, y: NaN}], which is neither a point of the unit square nor a
    defined fallback. *)
Theorem toNorm_zero_size_box_is_NaN :
  toNorm unsizedImage 400 2 = {| pt_x := NaN; pt_y := NaN |} /\
  ~ within 0 1 (pt_x (toNorm unsizedImage 400 2)) /\
  ~ within 0 1 (pt_y (toNorm unsizedImage 400 2)).
Proof.
  assert (E : toNorm unsizedImage 400 2 = {| pt_x := NaN; pt_y := NaN |}).
  { unfold toNorm, imageDims, unsizedImage. cbn. autorewrite with js.
    replace (400 - 0 - (400 - 0)) with 0 by lra.
    replace (2 - 0 - (2 - 0)) with 0 by lra.
    rewrite div_zero_zero. reflexivity. }
  rewrite E. cbn. repeat split; intros (r & Hr & _); discriminate.
Qed.

(* ================================================================== *)
(** ** History manager *)

Ltac break_match :=
  match goal with
  | |- context [match ?x with _ => _ end] => destruct x eqn:?
  end.

Ltac handler_cases := repeat (break_match; cbn).

Lemma pushHistory_spec (next : list Annotation) (s : State) :
  annotations (pushHistory next s) = next /\ pushed s (pushHistory next s).
Proof. repeat split. Qed.

Lemma undo_nonempty (s : State) (u : list (list Annotation))
    (p : list Annotation) :
  undoStack s = u ++ [p] ->
  undo s =
    setUndoStack u
      (onChange p (setRedoStack (redoStack s ++ [annotations s]) s)).
Proof.
  intros H. unfold undo. rewrite H.
  destruct (u ++ [p]) eqn:E; [destruct u; discriminate|].
  rewrite <- E, last_last, removelast_last. reflexivity.
Qed.

Lemma redo_nonempty (s : State) (r : list (list Annotation))
    (n : list Annotation) :
  redoStack s = r ++ [n] ->
  redo s =
    setRedoStack r
      (onChange n (setUndoStack (undoStack s ++ [annotations s]) s)).
Proof.
  intros H. unfold redo. rewrite H.
  destruct (r ++ [n]) eqn:E; [destruct r; discriminate|].
  rewrite <- E, last_last, removelast_last. reflexivity.
Qed.

(** Undo then redo is the identity whenever there is something to undo,
    whatever the redo stack holds. *)
Lemma redo_undo_nonempty (s : State) :
  undoStack s <> [] -> redo (undo s) = s.
Proof.
  intros Hne.
  destruct (exists_last Hne) as (u & p & Hu).
  rewrite (undo_nonempty s u p Hu).
  erewrite redo_nonempty by (cbn; reflexivity).
  destruct s; cbn in *. subst. reflexivity.
Qed.

(** With both stacks empty neither function does anything. *)
Lemma redo_undo_empty (s : State) :
  undoStack s = [] -> redoStack s = [] -> redo (undo s) = s.
Proof.
  intros Hu Hr. unfold undo. rewrite Hu. unfold redo. rewrite Hr.
  reflexivity.
Qed.

(** No action other than redo and undo puts anything on the redo stack. *)
Lemma perform_redoStack (s : State) (a : Action) :
  redoStack (perform s a) = redoStack s \/ redoStack (perform s a) = [].
Proof.
  destruct a; cbn;
    unfold onPointerDown, onPointerMove, onPointerUp, finishDrawing,
      commitNew, clearAll, removeImage, removeSelected, removeFromList,
      updateSelectedAnnotation, onImageFileChange;
    handler_cases; auto.
Qed.

Lemma performAll_redoStack (acts : list Action) (s : State) :
  redoStack s = [] -> redoStack (performAll s acts) = [].
Proof.
  revert s. induction acts as [|a acts IH]; intros s Hs; cbn; [exact Hs|].
  apply IH. destruct (perform_redoStack s a) as [H|H]; congruence.
Qed.

(** C1: in every state reached from a fresh session by any sequence of
    editing actions (creating, deleting, clearing, moving, resizing, text
    editing, in any order), undo immediately followed by redo gives back the
    very same session state: the same annotation set, the same undo stack
    and the same redo stack. *)
Theorem undo_then_redo_restores (img : option string)
    (anns : list Annotation) (acts : list Action) :
  let s := performAll (init img anns) acts in
  redo (undo s) = s /\
  annotations (redo (undo s)) = annotations s /\
  undoStack (redo (undo s)) = undoStack s /\
  redoStack (redo (undo s)) = redoStack s.
Proof.
  intros s.
  assert (E : redo (undo s) = s).
  { destruct (undoStack s) eqn:Hu.
    - apply redo_undo_empty; [exact Hu|].
      apply performAll_redoStack. reflexivity.
    - apply redo_undo_nonempty. rewrite Hu. discriminate. }
  rewrite E. auto.
Qed.

(** C2 (amended): loading a new base image replaces the image, empties
    the annotation set and drops the selection; the undo stack and the redo
    stack are left as they were. *)
Theorem load_image_clears_annotations_only (data : string) (s : State) :
  let s' := onImageFileChange (Some (Some data)) s in
  baseImage s' = Some data /\
  annotations s' = [] /\
  selectedId s' = None /\
  editingTextId s' = None /\
  undoStack s' = undoStack s /\
  redoStack s' = redoStack s.
Proof. repeat split. Qed.

(** Counterexample to C2 as stated: loading a new image while three
    annotations exist empties the annotation set but not the undo stack,
    which still holds the three snapshots taken before. *)
Lemma load_image_keeps_undo_stack :
  let s' :=
    onImageFileChange (Some (Some "data:image/png;base64,BBBB"%string)) threeTexts in
  List.length (annotations threeTexts) = 3%nat /\
  annotations s' = [] /\
  List.length (undoStack s') = 3%nat /\
  ~ (annotations s' = [] /\ undoStack s' = [] /\ redoStack s' = []).
Proof.
  cbn. repeat split. intros (_ & H & _). discriminate H.
Qed.

(* ================================================================== *)
(** ** Hit testing *)

Lemma firstn_snoc {A : Type} (l : list A) (i : nat) (a : A) :
  nth_error l i = Some a -> firstn (S i) l = firstn i l ++ [a].
Proof.
  revert i. induction l as [|b l IH]; intros [|i] H; cbn in *;
    try discriminate.
  - congruence.
  - f_equal. apply IH. exact H.
Qed.

Lemma firstn_past_end {A : Type} (l : list A) (i : nat) :
  nth_error l i = None -> firstn (S i) l = firstn i l.
Proof.
  intros H. apply nth_error_None in H.
  rewrite !firstn_all2; auto.
Qed.

(** The loop, run over the first [n] indices, finds the first hit of the
    reversed prefix. *)
Lemma hitLoop_find (norm : Point) (anns : list Annotation) (n : nat) :
  hitLoop norm anns n =
  option_map ann_id (find (hits norm) (rev (firstn n anns))).
Proof.
  induction n as [|i IH]; [reflexivity|].
  cbn [hitLoop]. destruct (nth_error anns i) as [a|] eqn:Hi.
  - rewrite (firstn_snoc _ _ _ Hi), rev_app_distr. cbn.
    destruct (hits norm a); [reflexivity | exact IH].
  - rewrite (firstn_past_end _ _ Hi). exact IH.
Qed.

Lemma getAnnotationAt_find (L : Layout) (anns : list Annotation)
    (cx cy : number) :
  getAnnotationAt L anns cx cy =
  option_map ann_id (find (hits (toNorm L cx cy)) (rev anns)).
Proof.
  unfold getAnnotationAt. rewrite hitLoop_find, firstn_all. reflexivity.
Qed.

Lemma find_all_false {A : Type} (f : A -> bool) (l : list A) :
  (forall x, In x l -> f x = false) -> find f l = None.
Proof.
  induction l as [|a l IH]; intros H; [reflexivity|]. cbn.
  rewrite (H a (or_introl eq_refl)). apply IH. intros x Hx. apply H.
  right. exact Hx.
Qed.

Lemma find_skip {A : Type} (f : A -> bool) (l1 l2 : list A) :
  (forall x, In x l1 -> f x = false) -> find f (l1 ++ l2) = find f l2.
Proof.
  induction l1 as [|a l1 IH]; intros H; [reflexivity|]. cbn.
  rewrite (H a (or_introl eq_refl)). apply IH. intros x Hx. apply H.
  right. exact Hx.
Qed.

(** A hit names an annotation of the set. *)
Lemma getAnnotationAt_some (L : Layout) (anns : list Annotation)
    (cx cy : number) (h : string) :
  getAnnotationAt L anns cx cy = Some h ->
  exists a, In a anns /\ ann_id a = h /\ hits (toNorm L cx cy) a = true.
Proof.
  rewrite getAnnotationAt_find.
  destruct (find _ (rev anns)) as [a|] eqn:Hf; [|discriminate].
  intros [= <-]. apply find_some in Hf. destruct Hf as [Hin Hh].
  exists a. rewrite <- in_rev in Hin. auto.
Qed.

(** C4: [getAnnotationAt] prefers the annotation inserted last. If [a]
    is within tolerance of the pointer and no annotation inserted after it
    is, the result is [a]'s id, whatever lies underneath; if no annotation
    is within tolerance the result is [null], and the function returns in
    every case. *)
Theorem getAnnotationAt_topmost (L : Layout) (anns : list Annotation)
    (cx cy : number) :
  let norm := toNorm L cx cy in
  (forall l1 a l2,
      anns = l1 ++ a :: l2 ->
      hits norm a = true ->
      (forall b, In b l2 -> hits norm b = false) ->
      getAnnotationAt L anns cx cy = Some (ann_id a)) /\
  ((forall b, In b anns -> hits norm b = false) ->
   getAnnotationAt L anns cx cy = None) /\
  (getAnnotationAt L anns cx cy = None ->
   forall b, In b anns -> hits norm b = false).
Proof.
  intros norm. rewrite getAnnotationAt_find. fold norm.
  split; [|split].
  - intros l1 a l2 -> Ha Hl2.
    rewrite rev_app_distr. cbn. rewrite <- app_assoc.
    rewrite find_skip by (intros x Hx; apply Hl2; apply in_rev; exact Hx).
    cbn. rewrite Ha. reflexivity.
  - intros Hnone. rewrite find_all_false; [reflexivity|].
    intros x Hx. apply Hnone. apply in_rev. exact Hx.
  - intros Hres b Hb.
    destruct (find (hits norm) (rev anns)) eqn:Hf; [discriminate|].
    apply (find_none _ _ Hf). rewrite <- in_rev. exact Hb.
Qed.

(** Deciding comparisons between concrete finite numbers. *)
Ltac js_compare :=
  unfold tolerance; autorewrite with js;
  unfold ge, gt, le, lt, Rleb, Rltb; js_cases; cbn;
  try reflexivity; try lra.

Lemma getAnnotationAt_topmost_witness :
  getAnnotationAt plainLayout [bottomRect; topRect] 320 240
    = Some "top"%string /\
  getAnnotationAt plainLayout [bottomRect; topRect] 720 540 = None.
Proof.
  split.
  - apply (proj1 (getAnnotationAt_topmost plainLayout
                    [bottomRect; topRect] 320 240) [bottomRect] topRect []).
    + reflexivity.
    + rewrite toNorm_plain by lra. cbn. js_compare.
    + intros b [].
  - apply (proj1 (proj2 (getAnnotationAt_topmost plainLayout
                           [bottomRect; topRect] 720 540))).
    rewrite toNorm_plain by lra.
    intros b [<-|[<-|[]]]; cbn; js_compare.
Defined.

(* ================================================================== *)
(** ** Committing a drawn shape *)

(** The two thresholds on finite coordinates, in real arithmetic. *)
Lemma rect_threshold_finite (sx sy cx cy : R) :
  ((Math_abs (Num cx - Num sx) >? 0.01)%js &&
   (Math_abs (Num cy - Num sy) >? 0.01)%js) = true <->
  0.01 < Rabs (cx - sx) /\ 0.01 < Rabs (cy - sy).
Proof.
  autorewrite with js. rewrite andb_true_iff, !gt_Num. reflexivity.
Qed.

Lemma arrow_threshold_finite (sx sy cx cy : R) :
  (Math_sqrt (Math_pow2 (Num cx - Num sx) + Math_pow2 (Num cy - Num sy))
     >? 0.02)%js = true <->
  0.02 < sqrt ((cx - sx) * (cx - sx) + (cy - sy) * (cy - sy)).
Proof.
  autorewrite with js. rewrite Math_sqrt_Num by apply sum_sq_nonneg.
  apply gt_Num.
Qed.

Lemma short_arrow_below_threshold :
  (Math_sqrt (Math_pow2 (Num 0.01 - Num 0) + Math_pow2 (Num 0.01 - Num 0))
     >? 0.02)%js = false.
Proof.
  destruct (_ >? _)%js eqn:E; [|reflexivity].
  apply arrow_threshold_finite in E.
  apply sqrt_gt_iff in E; [lra | lra | apply sum_sq_nonneg].
Qed.

Lemma onPointerUp_drawing (L : Layout) (newId : string) (e : PointerEvent)
    (s : State) (d : Drawing) :
  truthy (baseImage s) = true ->
  drawing s = Some d ->
  onPointerUp L newId e s =
  setDragRef None (setIsDragging false (setDrawing None
    (finishDrawing newId d s))).
Proof.
  intros Hb Hd. unfold onPointerUp. rewrite Hb, Hd. reflexivity.
Qed.

(** C5: what pointer-up does with the shape being drawn. A pen stroke is
    committed exactly when it has at least two points; a rectangle exactly
    when its width and its height both exceed 0.01; an arrow exactly when
    the distance between its endpoints exceeds 0.02. A commit appends the
    new annotation, pushes the previous set on the undo stack and empties
    the redo stack; anything below the threshold leaves the annotation set
    and both stacks as they were. The arrow from (0,0) to (0.01,0.01) is
    below the threshold. *)
Theorem onPointerUp_commit_thresholds (L : Layout) (newId : string)
    (e : PointerEvent) (s : State) :
  truthy (baseImage s) = true ->
  let s' := onPointerUp L newId e s in
  (forall sx sy pts cx cy,
      drawing s = Some (mkDrawing pen sx sy (Some pts) cx cy) ->
      if (2 <=? List.length pts)%nat
      then committed (PenAnnotation (freshBase newId s) pts None) s s'
      else kept s s') /\
  (forall sx sy pts cx cy,
      drawing s = Some (mkDrawing rect sx sy pts (Some cx) (Some cy)) ->
      if (Math_abs (cx - sx) >? 0.01)%js && (Math_abs (cy - sy) >? 0.01)%js
      then committed
             (RectAnnotation (freshBase newId s)
                (Math_min sx cx) (Math_min sy cy)
                (Math_abs (cx - sx)) (Math_abs (cy - sy))) s s'
      else kept s s') /\
  (forall sx sy pts cx cy,
      drawing s = Some (mkDrawing arrow sx sy pts (Some cx) (Some cy)) ->
      if (Math_sqrt (Math_pow2 (cx - sx) + Math_pow2 (cy - sy)) >? 0.02)%js
      then committed (ArrowAnnotation (freshBase newId s) sx sy cx cy) s s'
      else kept s s') /\
  (forall pts,
      drawing s =
        Some (mkDrawing arrow 0 0 pts (Some (Num 0.01)) (Some (Num 0.01))) ->
      kept s s').
Proof.
  intros Hb s'. subst s'. split; [|split; [|split]].
  - intros sx sy pts cx cy Hd.
    rewrite (onPointerUp_drawing _ _ _ _ _ Hb Hd).
    unfold finishDrawing.
    cbn [d_type d_points currentX currentY startX startY].
    change (1 <? List.length pts)%nat with (2 <=? List.length pts)%nat.
    destruct (2 <=? List.length pts)%nat; repeat split.
  - intros sx sy pts cx cy Hd.
    rewrite (onPointerUp_drawing _ _ _ _ _ Hb Hd).
    unfold finishDrawing.
    cbn [d_type d_points currentX currentY startX startY].
    destruct (_ && _); repeat split.
  - intros sx sy pts cx cy Hd.
    rewrite (onPointerUp_drawing _ _ _ _ _ Hb Hd).
    unfold finishDrawing.
    cbn [d_type d_points currentX currentY startX startY].
    destruct (_ >? _)%js; repeat split.
  - intros pts Hd.
    rewrite (onPointerUp_drawing _ _ _ _ _ Hb Hd).
    unfold finishDrawing.
    cbn [d_type d_points currentX currentY startX startY].
    rewrite short_arrow_below_threshold. repeat split.
Qed.

Lemma onPointerUp_commit_thresholds_witness :
  committed (RectAnnotation (freshBase "ann_1" drawingRect) 0.1 0.1 0.4 0.4)
    drawingRect
    (onPointerUp plainLayout "ann_1" (pointerAt 400 300) drawingRect).
Proof.
  pose proof (proj1 (proj2 (onPointerUp_commit_thresholds plainLayout
    "ann_1" (pointerAt 400 300) drawingRect eq_refl))
    0.1 0.1 None 0.5 0.5 eq_refl) as H.
  assert (Hc : ((Math_abs (Num 0.5 - Num 0.1) >? 0.01)%js &&
                (Math_abs (Num 0.5 - Num 0.1) >? 0.01)%js) = true).
  { apply rect_threshold_finite. unfold Rabs.
    destruct (Rcase_abs (0.5 - 0.1)); lra. }
  rewrite Hc in H.
  replace (Math_min (Num 0.1) (Num 0.5)) with (Num 0.1) in H
    by (unfold Math_min, lt, Rltb; destruct (Rlt_dec 0.5 0.1);
        [lra | reflexivity]).
  replace (Math_abs (Num 0.5 - Num 0.1)) with (Num 0.4) in H
    by (autorewrite with js; f_equal; unfold Rabs;
        destruct (Rcase_abs (0.5 - 0.1)); lra).
  exact H.
Defined.

(* ================================================================== *)
(** ** One history entry per commit *)

Lemma find_has_id (anns : list Annotation) (a : Annotation) :
  In a anns -> exists a', find (has_id (ann_id a)) anns = Some a'.
Proof.
  intros Hin. destruct (find (has_id (ann_id a)) anns) as [a'|] eqn:Hf.
  - exists a'. reflexivity.
  - pose proof (find_none _ _ Hf a Hin) as H. unfold has_id in H.
    rewrite String.eqb_refl in H. discriminate.
Qed.

(** The start of a drag: pointer-down with the select tool on an
    annotation. *)
Lemma onPointerDown_select_hit (L : Layout) (newId : string)
    (e : PointerEvent) (s : State) (h : string) (crect : DOMRect) :
  truthy (baseImage s) = true ->
  tool s = select ->
  getAnnotationAt L (annotations s) (clientX e) (clientY e) = Some h ->
  h <> ""%string ->
  containerRef L = Some crect ->
  let s' := onPointerDown L newId e s in
  annotations s' = annotations s /\
  pushed s s' /\
  isDragging s' = true /\
  selectedId s' = Some h /\
  drawing s' = drawing s /\
  baseImage s' = baseImage s /\
  tool s' = select /\
  exists m c,
    dragRef s' =
    Some (mkDragRef m h c
            (pt_x (toNorm L (clientX e) (clientY e)))
            (pt_y (toNorm L (clientX e) (clientY e)))).
Proof.
  intros Hb Ht Hhit Hne Hc s'. subst s'. unfold onPointerDown.
  rewrite Hb, Ht, Hhit, Hc. cbn [negb].
  apply String.eqb_neq in Hne. rewrite Hne. cbn [negb].
  destruct (getAnnotationAt_some _ _ _ _ _ Hhit) as (a & Hin & <- & _).
  destruct (find_has_id _ _ Hin) as (a' & ->).
  destruct (pickDrag L _ _ a') as [m c].
  destruct a'; cbn; unfold pushed; cbn; repeat split; eauto.
Qed.

(** One pointer-move of a drag: the model is mutated, the history is not. *)
Lemma onPointerMove_dragging (L : Layout) (e : PointerEvent) (s : State)
    (dr : DragRef) (idx : nat) (a : Annotation) :
  truthy (baseImage s) = true ->
  drawing s = None ->
  isDragging s = true ->
  truthy (selectedId s) = true ->
  tool s = select ->
  dragRef s = Some dr ->
  findIndex (has_id (dr_id dr)) (annotations s) = Some idx ->
  nth_error (annotations s) idx = Some a ->
  let norm := toNorm L (clientX e) (clientY e) in
  let s' := onPointerMove L e s in
  annotations s' = setAt idx (dragUpdate dr norm a) (annotations s) /\
  undoStack s' = undoStack s /\
  redoStack s' = redoStack s.
Proof.
  intros Hb Hd Hg Hs Ht Hr Hi Hn norm s'. subst s' norm.
  unfold onPointerMove. rewrite Hb, Hd, Hg, Hs, Ht, Hr, Hi, Hn.
  cbn. repeat split.
Qed.

(** Pointer-moves never touch the history, and start no drawing. *)
Lemma onPointerMove_history (L : Layout) (e : PointerEvent) (s : State) :
  undoStack (onPointerMove L e s) = undoStack s /\
  redoStack (onPointerMove L e s) = redoStack s /\
  baseImage (onPointerMove L e s) = baseImage s /\
  (drawing s = None -> drawing (onPointerMove L e s) = None).
Proof.
  unfold onPointerMove. handler_cases; repeat split; auto; discriminate.
Qed.

Lemma moveAll_history (moves : list (Layout * PointerEvent)) (s : State) :
  undoStack (moveAll moves s) = undoStack s /\
  redoStack (moveAll moves s) = redoStack s /\
  baseImage (moveAll moves s) = baseImage s /\
  (drawing s = None -> drawing (moveAll moves s) = None).
Proof.
  revert s. induction moves as [|m moves IH]; intros s; cbn; [auto|].
  destruct (IH (onPointerMove (fst m) (snd m) s)) as (Hu & Hr & Hb & Hd).
  destruct (onPointerMove_history (fst m) (snd m) s) as (Hu' & Hr' & Hb' & Hd').
  unfold moveAll in *. repeat split; try congruence. auto.
Qed.

(** Every action either leaves the annotation set and the history alone
    or pushes the previous set, with two exceptions that change the set and
    leave the history alone: a pointer-move of a drag, and the loading of
    an image. *)
Lemma perform_history (s : State) (a : Action) :
  let s' := perform s a in
  kept s s' \/ pushed s s' \/
  (exists L e, a = PointerMove L e /\ drawing s = None /\
     isDragging s = true /\
     undoStack s' = undoStack s /\ redoStack s' = redoStack s) \/
  (exists data, a = LoadImage (Some (Some data)) /\
     undoStack s' = undoStack s /\ redoStack s' = redoStack s).
Proof.
  destruct a; cbn;
    unfold onPointerDown, onPointerMove, onPointerUp, finishDrawing,
      commitNew, clearAll, removeImage, removeSelected, removeFromList,
      updateSelectedAnnotation, onImageFileChange;
    handler_cases;
    try (left; repeat split; reflexivity);
    try (right; left; repeat split; reflexivity);
    try (right; right; right; eexists; repeat split; reflexivity).
  all: right; right; left; exists L, e; repeat split; try assumption.
  all: repeat match goal with
         | H : (_ && _)%bool = true |- _ =>
             apply andb_true_iff in H; destruct H
         end; assumption.
Qed.

(** C6: every commit pushes the pre-operation snapshot on the undo stack
    and empties the redo stack before the new set is applied
    ([pushHistory], and every action that changes the set, a drag's moves
    and the loading of an image apart); a drag pushes its one entry, the
    pre-drag set, at pointer-down; each pointer-move of the drag writes the
    updated annotation into the set and leaves both stacks alone; so a
    whole gesture, however many moves it has, adds exactly the pre-drag
    snapshot. *)
Theorem history_one_entry_per_commit :
  (forall next s,
      annotations (pushHistory next s) = next /\
      pushed s (pushHistory next s)) /\
  (forall s a,
      kept s (perform s a) \/ pushed s (perform s a) \/
      (exists L e, a = PointerMove L e /\ drawing s = None /\
         isDragging s = true /\
         undoStack (perform s a) = undoStack s /\
         redoStack (perform s a) = redoStack s) \/
      (exists data, a = LoadImage (Some (Some data)) /\
         undoStack (perform s a) = undoStack s /\
         redoStack (perform s a) = redoStack s)) /\
  (forall L e s dr idx a,
      truthy (baseImage s) = true ->
      drawing s = None ->
      isDragging s = true ->
      truthy (selectedId s) = true ->
      tool s = select ->
      dragRef s = Some dr ->
      findIndex (has_id (dr_id dr)) (annotations s) = Some idx ->
      nth_error (annotations s) idx = Some a ->
      annotations (onPointerMove L e s) =
        setAt idx (dragUpdate dr (toNorm L (clientX e) (clientY e)) a)
          (annotations s) /\
      undoStack (onPointerMove L e s) = undoStack s /\
      redoStack (onPointerMove L e s) = redoStack s) /\
  (forall down moves up newId s h crect,
      truthy (baseImage s) = true ->
      tool s = select ->
      drawing s = None ->
      getAnnotationAt (fst down) (annotations s)
        (clientX (snd down)) (clientY (snd down)) = Some h ->
      h <> ""%string ->
      containerRef (fst down) = Some crect ->
      annotations (onPointerDown (fst down) newId (snd down) s)
        = annotations s /\
      pushed s (onPointerDown (fst down) newId (snd down) s) /\
      pushed s (gesture down moves up newId s)).
Proof.
  split; [|split; [|split]].
  - intros next s. apply pushHistory_spec.
  - intros s a. apply perform_history.
  - intros L e s dr idx a Hb Hd Hg Hs Ht Hr Hi Hn.
    apply (onPointerMove_dragging L e s dr idx a); assumption.
  - intros down moves up newId s h crect Hb Ht Hd Hhit Hne Hc.
    destruct (onPointerDown_select_hit _ newId _ _ _ _ Hb Ht Hhit Hne Hc)
      as (Ha & [Hu Hr] & _ & _ & Hd' & Hb' & _).
    split; [exact Ha|]. split; [split; assumption|].
    set (s1 := onPointerDown (fst down) newId (snd down) s) in *.
    destruct (moveAll_history moves s1) as (Hu2 & Hr2 & Hb2 & Hd2).
    unfold gesture. fold s1. set (s2 := moveAll moves s1) in *.
    assert (Hd3 : drawing s2 = None) by (apply Hd2; congruence).
    unfold onPointerUp. rewrite Hb2, Hb', Hb, Hd3. cbn.
    unfold pushed. cbn. split; congruence.
Qed.

Lemma history_one_entry_per_commit_witness :
  pushed oneRect
    (gesture (plainLayout, pointerAt 160 120)
       [ (plainLayout, pointerAt 240 180); (plainLayout, pointerAt 320 240) ]
       (plainLayout, pointerAt 320 240) "ann_9" oneRect).
Proof.
  refine (proj2 (proj2 (proj2 (proj2 (proj2 history_one_entry_per_commit))
    (plainLayout, pointerAt 160 120) _ _ "ann_9"%string oneRect
    "bottom"%string (mkDOMRect 0 0 800 600)
    eq_refl eq_refl eq_refl _ _ eq_refl))).
  - rewrite getAnnotationAt_find. unfold pointerAt.
    cbn [fst snd clientX clientY]. rewrite toNorm_plain by lra.
    assert (Hh : hits {| pt_x := Num (160 / 800); pt_y := Num (120 / 600) |}
                   bottomRect = true) by (cbn; js_compare).
    cbn [oneRect init annotations rev app find option_map].
    rewrite Hh. reflexivity.
  - discriminate.
Defined.

(* ================================================================== *)
(** ** Mutation rules *)

Lemma clamp_unit (v : R) : within 0 1 (clamp v 0 1).
Proof.
  destruct (clamp_Num v 0 1) as (r & E & Hr & _); [lra|].
  exists r. auto.
Qed.

(** C7: a move keeps every coordinate of the moved annotation in
    [[0,1]], whatever its type and whatever the pointer delta; a moved
    rectangle moreover has [x] in [[0, 1 - width]] and [y] in
    [[0, 1 - height]], so that the whole box stays inside the image. *)
Theorem move_keeps_annotation_in_bounds (i : string) (c : option Corner)
    (px py nx ny : R) (a : Annotation) :
  well_formed a ->
  in_bounds
    (dragUpdate (mkDragRef move i c px py) {| pt_x := nx; pt_y := ny |} a).
Proof.
  intros Hwf. destruct Hwf as [b pts o Hpts|b x y w h Hw Hh|b x1 y1 x2 y2|b x y t];
    cbn [dragUpdate mode prevX prevY pt_x pt_y in_bounds];
    autorewrite with js.
  - induction Hpts as [|p pts (x & y & ->) _ IH]; cbn [map];
      constructor; [|exact IH].
    cbn [pt_x pt_y]. autorewrite with js. split; apply clamp_unit.
  - destruct (clamp_Num (x + (nx - px)) 0 (1 - w)) as (xr & Ex & Hx & _);
      [lra|].
    destruct (clamp_Num (y + (ny - py)) 0 (1 - h)) as (yr & Ey & Hy & _);
      [lra|].
    exists xr, yr, w, h. rewrite Ex, Ey. repeat split; lra.
  - repeat split; apply clamp_unit.
  - split; apply clamp_unit.
Qed.

Lemma move_keeps_annotation_in_bounds_witness :
  in_bounds
    (dragUpdate (mkDragRef move "bottom" None 0.2 0.2)
       {| pt_x := Num 0.95; pt_y := Num 0.1 |} bottomRect).
Proof.
  apply (move_keeps_annotation_in_bounds "bottom" None 0.2 0.2 0.95 0.1
           bottomRect).
  unfold bottomRect. apply wf_rect; lra.
Defined.

(** C8: resizing a well-formed rectangle by a corner keeps the opposite
    corner where it was, puts the dragged corner on the pointer whenever the
    pointer lies in the range that corner may take, never makes the width
    or the height negative and keeps the box inside the unit square.
    Dragging the [se] corner of a rectangle at (0.2, 0.2) to (0.9, 0.9)
    gives width 0.7 and height 0.7 and leaves [x] and [y] alone. *)
Theorem resize_rect_by_corner :
  (forall b i (px py x y w h nx ny : R) c,
      0 <= x -> 0 <= y -> 0 <= w -> 0 <= h -> x + w <= 1 -> y + h <= 1 ->
      exists x' y' w' h' : R,
        dragUpdate (mkDragRef resizeRect i (Some c) px py)
          {| pt_x := nx; pt_y := ny |} (RectAnnotation b x y w h)
        = RectAnnotation b x' y' w' h' /\
        0 <= x' /\ 0 <= y' /\ 0 <= w' /\ 0 <= h' /\
        x' + w' <= 1 /\ y' + h' <= 1 /\
        match c with
        | nw => x' + w' = x + w /\ y' + h' = y + h /\
                (0 <= nx <= x + w -> x' = nx) /\
                (0 <= ny <= y + h -> y' = ny)
        | ne => x' = x /\ y' + h' = y + h /\
                (x <= nx <= 1 -> x' + w' = nx) /\
                (0 <= ny <= y + h -> y' = ny)
        | sw => x' + w' = x + w /\ y' = y /\
                (0 <= nx <= x + w -> x' = nx) /\
                (y <= ny <= 1 -> y' + h' = ny)
        | se => x' = x /\ y' = y /\
                (x <= nx <= 1 -> x' + w' = nx) /\
                (y <= ny <= 1 -> y' + h' = ny)
        end) /\
  (forall b i px py (w h : number),
      dragUpdate (mkDragRef resizeRect i (Some se) px py)
        {| pt_x := Num 0.9; pt_y := Num 0.9 |}
        (RectAnnotation b (Num 0.2) (Num 0.2) w h)
      = RectAnnotation b (Num 0.2) (Num 0.2) (Num 0.7) (Num 0.7)).
Proof.
  split.
  - intros b i px py x y w h nx ny c Hx Hy Hw Hh Hxw Hyh.
    destruct c; cbn [dragUpdate mode corner pt_x pt_y]; autorewrite with js.
    + destruct (clamp_Num nx 0 (x + w)) as (rx & Ex & Hrx & Kx); [lra|].
      destruct (clamp_Num ny 0 (y + h)) as (ry & Ey & Hry & Ky); [lra|].
      rewrite Ex, Ey. autorewrite with js.
      exists rx, ry, (x + w - rx), (y + h - ry).
      repeat split; try lra; intros; rewrite ?Kx, ?Ky by assumption; lra.
    + destruct (clamp_Num (nx - x) 0 (1 - x)) as (rw & Ew & Hrw & Kw); [lra|].
      destruct (clamp_Num ny 0 (y + h)) as (ry & Ey & Hry & Ky); [lra|].
      rewrite Ew, Ey. autorewrite with js.
      exists x, ry, rw, (y + h - ry).
      repeat split; try lra; intros; rewrite ?Kw, ?Ky by lra; lra.
    + destruct (clamp_Num nx 0 (x + w)) as (rx & Ex & Hrx & Kx); [lra|].
      destruct (clamp_Num (ny - y) 0 (1 - y)) as (rh & Eh & Hrh & Kh); [lra|].
      rewrite Ex, Eh. autorewrite with js.
      exists rx, y, (x + w - rx), rh.
      repeat split; try lra; intros; rewrite ?Kx, ?Kh by lra; lra.
    + destruct (clamp_Num (nx - x) 0 (1 - x)) as (rw & Ew & Hrw & Kw); [lra|].
      destruct (clamp_Num (ny - y) 0 (1 - y)) as (rh & Eh & Hrh & Kh); [lra|].
      rewrite Ew, Eh.
      exists x, y, rw, rh.
      repeat split; try lra; intros; rewrite ?Kw, ?Kh by lra; lra.
  - intros b i px py w h.
    cbn [dragUpdate mode corner pt_x pt_y]. autorewrite with js.
    destruct (clamp_Num (0.9 - 0.2) 0 (1 - 0.2)) as (r & E & _ & K); [lra|].
    rewrite E, K by lra. do 2 f_equal; lra.
Qed.

Lemma resize_rect_by_corner_witness :
  exists x' y' w' h' : R,
    dragUpdate (mkDragRef resizeRect "bottom" (Some nw) 0.1 0.1)
      {| pt_x := Num 0.3; pt_y := Num 0.2 |} bottomRect
    = RectAnnotation (plainBase "bottom") x' y' w' h' /\
    x' = 0.3 /\ y' = 0.2 /\ x' + w' = 0.1 + 0.4 /\ y' + h' = 0.1 + 0.4.
Proof.
  destruct (proj1 resize_rect_by_corner (plainBase "bottom") "bottom"%string
              0.1 0.1 0.1 0.1 0.4 0.4 0.3 0.2 nw)
    as (x' & y' & w' & h' & E & _ & _ & _ & _ & _ & _ & Hx & Hy & Kx & Ky);
    try lra.
  exists x', y', w', h'. split; [exact E|].
  repeat split; [apply Kx; lra | apply Ky; lra | exact Hx | exact Hy].
Defined.

Lemma setAt_other {A : Type} (l : list A) (idx j : nat) (v : A) :
  j <> idx -> nth_error (setAt idx v l) j = nth_error l j.
Proof.
  revert idx j. induction l as [|a l IH]; intros [|idx] [|j] H; cbn;
    try reflexivity; try congruence.
  apply IH. congruence.
Qed.

Lemma setAt_same {A : Type} (l : list A) (idx : nat) (v a : A) :
  nth_error l idx = Some a -> nth_error (setAt idx v l) idx = Some v.
Proof.
  revert idx. induction l as [|b l IH]; intros [|idx] H; cbn in *;
    try discriminate; auto.
Qed.

Lemma setAt_length {A : Type} (l : list A) (idx : nat) (v : A) :
  List.length (setAt idx v l) = List.length l.
Proof.
  revert idx. induction l as [|a l IH]; intros [|idx]; cbn; auto.
Qed.

(** C9: dragging an arrow endpoint rewrites the two coordinates of that
    endpoint with the clamped pointer position and nothing else: the other
    endpoint and the shared attributes (id, color, size, linked field) are
    the ones the arrow had, and every other annotation of the set is left
    as it was. The clamped coordinates lie in [[0,1]] for every pointer
    position that is a number. *)
Theorem arrow_endpoint_drag_frame :
  (forall i c px py norm b x1 y1 x2 y2,
      dragUpdate (mkDragRef arrowStart i c px py) norm
        (ArrowAnnotation b x1 y1 x2 y2)
      = ArrowAnnotation b (clamp (pt_x norm) 0 1) (clamp (pt_y norm) 0 1)
          x2 y2 /\
      dragUpdate (mkDragRef arrowEnd i c px py) norm
        (ArrowAnnotation b x1 y1 x2 y2)
      = ArrowAnnotation b x1 y1
          (clamp (pt_x norm) 0 1) (clamp (pt_y norm) 0 1)) /\
  (forall v : number, v <> NaN -> within 0 1 (clamp v 0 1)) /\
  (forall L e s dr idx a,
      truthy (baseImage s) = true ->
      drawing s = None ->
      isDragging s = true ->
      truthy (selectedId s) = true ->
      tool s = select ->
      dragRef s = Some dr ->
      findIndex (has_id (dr_id dr)) (annotations s) = Some idx ->
      nth_error (annotations s) idx = Some a ->
      let s' := onPointerMove L e s in
      nth_error (annotations s') idx =
        Some (dragUpdate dr (toNorm L (clientX e) (clientY e)) a) /\
      List.length (annotations s') = List.length (annotations s) /\
      forall j, j <> idx ->
        nth_error (annotations s') j = nth_error (annotations s) j).
Proof.
  split; [|split].
  - intros. split; reflexivity.
  - intros v Hv. unfold clamp.
    destruct (clamp01_cases v) as [[H _]|[_ H]]; [contradiction | exact H].
  - intros L e s dr idx a Hb Hd Hg Hs Ht Hr Hi Hn s'.
    destruct (onPointerMove_dragging L e s dr idx a Hb Hd Hg Hs Ht Hr Hi Hn)
      as (Ha & _ & _).
    subst s'. rewrite Ha. split; [|split].
    + eapply setAt_same. exact Hn.
    + apply setAt_length.
    + intros j Hj. apply setAt_other. exact Hj.
Qed.

Lemma arrow_endpoint_drag_frame_witness :
  let s' := onPointerMove plainLayout (pointerAt 720 540) draggingArrow in
  nth_error (annotations s') 1 =
    Some (dragUpdate (mkDragRef arrowEnd "arrow" None 0.6 0.6)
            (toNorm plainLayout 720 540) someArrow) /\
  nth_error (annotations s') 0 = Some bottomRect /\
  within 0 1 (clamp (Num 1.5) 0 1).
Proof.
  destruct (proj2 (proj2 arrow_endpoint_drag_frame) plainLayout
              (pointerAt 720 540) draggingArrow
              (mkDragRef arrowEnd "arrow" None 0.6 0.6) 1%nat someArrow
              eq_refl eq_refl eq_refl eq_refl eq_refl eq_refl eq_refl eq_refl)
    as (Hidx & _ & Hother).
  split; [exact Hidx|]. split.
  - rewrite (Hother 0%nat) by discriminate. reflexivity.
  - apply (proj1 (proj2 arrow_endpoint_drag_frame) (Num 1.5)). discriminate.
Defined.

(* ================================================================== *)
(** ** Deleting *)

Lemma filter_keeps_all {A : Type} (f : A -> bool) (l : list A) :
  (forall x, In x l -> f x = true) -> filter f l = l.
Proof.
  induction l as [|a l IH]; intros H; [reflexivity|]. cbn.
  rewrite (H a (or_introl eq_refl)). f_equal. apply IH.
  intros x Hx. apply H. right. exact Hx.
Qed.

(** With unique identifiers, filtering out an identifier removes the one
    annotation that carries it. *)
Lemma removeById_unique (l1 l2 : list Annotation) (a : Annotation) :
  NoDup (map ann_id (l1 ++ a :: l2)) ->
  removeById (ann_id a) (l1 ++ a :: l2) = l1 ++ l2.
Proof.
  intros Hnd. rewrite map_app in Hnd. cbn in Hnd.
  apply NoDup_remove_2 in Hnd.
  assert (Hother : forall x, In x (l1 ++ l2) ->
                     negb (has_id (ann_id a) x) = true).
  { intros x Hx. unfold has_id.
    destruct (String.eqb_spec (ann_id x) (ann_id a)) as [E|]; [|reflexivity].
    exfalso. apply Hnd. rewrite <- map_app, <- E. apply in_map. exact Hx. }
  unfold removeById. rewrite filter_app. cbn. unfold has_id at 2.
  rewrite String.eqb_refl. cbn.
  rewrite <- filter_app. apply filter_keeps_all. exact Hother.
Qed.

(** C10: with unique identifiers, deleting the annotation [a] (by Delete
    Selected when [a] is selected, by an Erase-tool hit on [a], or from its
    row of the annotation list) yields the set without [a]: the annotations
    before it and after it are all kept, unchanged and in the same order. *)
Theorem delete_removes_exactly_one (s : State) (l1 l2 : list Annotation)
    (a : Annotation) :
  annotations s = l1 ++ a :: l2 ->
  NoDup (map ann_id (annotations s)) ->
  ann_id a <> ""%string ->
  (selectedId s = Some (ann_id a) ->
   annotations (removeSelected s) = l1 ++ l2) /\
  (forall L newId e,
      truthy (baseImage s) = true ->
      tool s = erase ->
      getAnnotationAt L (annotations s) (clientX e) (clientY e)
        = Some (ann_id a) ->
      annotations (onPointerDown L newId e s) = l1 ++ l2) /\
  annotations (removeFromList (ann_id a) s) = l1 ++ l2.
Proof.
  intros Hs Hnd Hne.
  assert (Hrm : removeById (ann_id a) (annotations s) = l1 ++ l2)
    by (rewrite Hs in *; apply removeById_unique; exact Hnd).
  apply String.eqb_neq in Hne.
  split; [|split].
  - intros Hsel. unfold removeSelected. rewrite Hsel, Hne. cbn.
    exact Hrm.
  - intros L newId e Hb Ht Hhit. unfold onPointerDown.
    rewrite Hb, Ht, Hhit, Hne. cbn [negb].
    destruct (opt_is (selectedId s) (ann_id a)); cbn; exact Hrm.
  - unfold removeFromList.
    destruct (opt_is (selectedId s) (ann_id a)); cbn; exact Hrm.
Qed.

Lemma delete_removes_exactly_one_witness :
  annotations (removeSelected twoRects) = [bottomRect].
Proof.
  refine (proj1 (delete_removes_exactly_one twoRects [bottomRect] []
                   topRect eq_refl _ _) eq_refl).
  - cbn. repeat constructor; cbn; intuition discriminate.
  - discriminate.
Defined.


(* ================================================================== *)
(** ** Further properties of the history manager *)

Lemma undo_components (s : State) (u : list (list Annotation))
    (p : list Annotation) :
  undoStack s = u ++ [p] ->
  annotations (undo s) = p /\
  undoStack (undo s) = u /\
  redoStack (undo s) = redoStack s ++ [annotations s].
Proof.
  intros H. rewrite (undo_nonempty s u p H). repeat split.
Qed.

(** X1: one undo reverts any step that pushed on the history (a commit
    through [pushHistory], or a whole drag gesture): the annotation set and
    the undo stack are those from before the step, the set the step had
    produced is the only entry of the redo stack, and a redo brings the
    state after the step back. *)
Theorem undo_reverts_pushed_step (s s' : State) :
  pushed s s' ->
  annotations (undo s') = annotations s /\
  undoStack (undo s') = undoStack s /\
  redoStack (undo s') = [annotations s'] /\
  redo (undo s') = s'.
Proof.
  intros [Hu Hr].
  destruct (undo_components s' _ _ Hu) as (Ha & Hu' & Hr').
  rewrite Hr in Hr'. repeat split; try assumption.
  apply redo_undo_nonempty. rewrite Hu. destruct (undoStack s); discriminate.
Qed.

Lemma undo_reverts_pushed_step_witness :
  annotations (undo (clearAll oneRect)) = [bottomRect] /\
  redo (undo (clearAll oneRect)) = clearAll oneRect.
Proof.
  assert (H : pushed oneRect (clearAll oneRect)) by (split; reflexivity).
  split.
  - exact (proj1 (undo_reverts_pushed_step oneRect (clearAll oneRect) H)).
  - exact (proj2 (proj2 (proj2
             (undo_reverts_pushed_step oneRect (clearAll oneRect) H)))).
Defined.

(** X2: redo followed immediately by undo is the identity whenever there
    is something to redo. *)
Theorem redo_then_undo_restores (s : State) :
  redoStack s <> [] -> undo (redo s) = s.
Proof.
  intros Hne.
  destruct (exists_last Hne) as (r & n & Hr).
  rewrite (redo_nonempty s r n Hr).
  erewrite undo_nonempty by (cbn; reflexivity).
  destruct s; cbn in *. subst. reflexivity.
Qed.

Lemma redo_then_undo_restores_witness :
  undo (redo (undo (pushHistory [bottomRect] oneRect)))
  = undo (pushHistory [bottomRect] oneRect).
Proof.
  apply (redo_then_undo_restores (undo (pushHistory [bottomRect] oneRect))).
  cbn. discriminate.
Defined.

Lemma undo_shrinks_undoStack (s : State) :
  undoStack s <> [] ->
  S (List.length (undoStack (undo s))) = List.length (undoStack s).
Proof.
  intros Hne. destruct (exists_last Hne) as (u & p & Hu).
  destruct (undo_components s u p Hu) as (_ & -> & _).
  rewrite Hu, length_app. cbn. lia.
Qed.

(** X3: undoing [k] times and then redoing [k] times is the identity
    whenever the undo stack holds at least [k] snapshots. *)
Theorem redo_all_after_undo_all (k : nat) (s : State) :
  (k <= List.length (undoStack s))%nat ->
  Nat.iter k redo (Nat.iter k undo s) = s.
Proof.
  revert s. induction k as [|k IH]; intros s Hk; [reflexivity|].
  assert (Hne : undoStack s <> [])
    by (destruct (undoStack s); [cbn in Hk; lia | discriminate]).
  replace (Nat.iter (S k) undo s) with (Nat.iter k undo (undo s))
    by (symmetry; apply Nat.iter_succ_r).
  rewrite Nat.iter_succ, IH.
  - apply redo_undo_nonempty. exact Hne.
  - pose proof (undo_shrinks_undoStack s Hne). lia.
Qed.

Lemma redo_all_after_undo_all_witness :
  Nat.iter 2 redo
    (Nat.iter 2 undo (commitAll [[bottomRect]; [bottomRect; topRect]] oneRect))
  = commitAll [[bottomRect]; [bottomRect; topRect]] oneRect.
Proof.
  apply (redo_all_after_undo_all 2
           (commitAll [[bottomRect]; [bottomRect; topRect]] oneRect)).
  cbn. lia.
Defined.

Lemma commitAll_cons (n : list Annotation) (nexts : list (list Annotation))
    (s : State) :
  commitAll (n :: nexts) s = commitAll nexts (pushHistory n s).
Proof. reflexivity. Qed.

(** X4: after any run of commits, undoing as many times as there were
    commits restores the annotation set and the undo stack from before the
    run, and leaves the sets the commits had produced on the redo stack,
    the latest at the bottom. *)
Theorem undo_all_commits (nexts : list (list Annotation)) (s : State) :
  redoStack s = [] ->
  let s' := Nat.iter (List.length nexts) undo (commitAll nexts s) in
  annotations s' = annotations s /\
  undoStack s' = undoStack s /\
  redoStack s' = rev nexts.
Proof.
  revert s. induction nexts as [|n nexts IH]; intros s Hr s'; subst s'.
  - cbn. auto.
  - rewrite commitAll_cons. cbn [List.length]. rewrite Nat.iter_succ.
    destruct (IH (pushHistory n s) eq_refl) as (Ha & Hu & Hr').
    cbn [annotations undoStack pushHistory onChange setRedoStack
         setUndoStack] in Ha, Hu.
    destruct (undo_components _ _ _ Hu) as (Ha2 & Hu2 & Hr2).
    rewrite Ha2, Hu2, Hr2, Hr', Ha. cbn. auto.
Qed.

Lemma undo_all_commits_witness :
  annotations
    (Nat.iter 2 undo
       (commitAll [[bottomRect]; [bottomRect; topRect]] oneRect))
  = [bottomRect].
Proof.
  exact (proj1 (undo_all_commits [[bottomRect]; [bottomRect; topRect]]
                  oneRect eq_refl)).
Defined.

(* ================================================================== *)
(** ** Further properties of the geometry helpers *)

Lemma unit_ratio (a w : R) : 0 < w -> 0 <= a <= w -> 0 <= a / w <= 1.
Proof.
  intros Hw Ha. pose proof (Rinv_0_lt_compat w Hw) as Hi.
  unfold Rdiv. split.
  - apply Rmult_le_pos; lra.
  - replace 1 with (w * / w) by (field; lra).
    apply Rmult_le_compat_r; lra.
Qed.

(** X5: [toNorm] and [fromNorm] are inverse to each other on a laid-out
    image. A normalized point of the unit square, sent to the screen by
    [fromNorm] (which answers relative to the container) and read back by
    [toNorm] (which takes client coordinates), is the point itself; and a
    pointer inside the image box, normalized and sent back to the screen,
    is the pointer relative to the container. *)
Theorem toNorm_fromNorm_round_trip (cl ct cw chh il it iw ih : R) :
  0 < iw -> 0 < ih ->
  let L := {| containerRef := Some (mkDOMRect cl ct cw chh);
              imgRef := Some (mkDOMRect il it iw ih) |} in
  (forall x y : R,
      0 <= x <= 1 -> 0 <= y <= 1 ->
      toNorm L (Num cl + pt_x (fromNorm L x y))%js
               (Num ct + pt_y (fromNorm L x y))%js
      = {| pt_x := x; pt_y := y |}) /\
  (forall cx cy : R,
      il <= cx <= il + iw -> it <= cy <= it + ih ->
      fromNorm L (pt_x (toNorm L cx cy)) (pt_y (toNorm L cx cy))
      = {| pt_x := Num (cx - cl); pt_y := Num (cy - ct) |}).
Proof.
  intros Hw Hh L. subst L. split.
  - intros x y Hx Hy. unfold toNorm, fromNorm, imageDims. cbn.
    autorewrite with js. rewrite !div_Num_nonzero by lra.
    replace ((cl + (il - cl + x * iw) - cl - (il - cl)) / iw) with x
      by (field; lra).
    replace ((ct + (it - ct + y * ih) - ct - (it - ct)) / ih) with y
      by (field; lra).
    destruct (clamp_Num x 0 1) as (r1 & E1 & _ & K1); [lra|].
    destruct (clamp_Num y 0 1) as (r2 & E2 & _ & K2); [lra|].
    unfold clamp in E1, E2. rewrite E1, E2, K1, K2 by lra. reflexivity.
  - intros cx cy Hx Hy. unfold toNorm, fromNorm, imageDims. cbn.
    autorewrite with js. rewrite !div_Num_nonzero by lra.
    assert (Bx : 0 <= (cx - cl - (il - cl)) / iw <= 1)
      by (apply unit_ratio; lra).
    assert (By : 0 <= (cy - ct - (it - ct)) / ih <= 1)
      by (apply unit_ratio; lra).
    destruct (clamp_Num ((cx - cl - (il - cl)) / iw) 0 1)
      as (r1 & E1 & _ & K1); [lra|].
    destruct (clamp_Num ((cy - ct - (it - ct)) / ih) 0 1)
      as (r2 & E2 & _ & K2); [lra|].
    unfold clamp in E1, E2. rewrite E1, E2, (K1 Bx), (K2 By).
    autorewrite with js. f_equal; f_equal; field; lra.
Qed.

Lemma toNorm_fromNorm_round_trip_witness :
  toNorm plainLayout (Num 0 + pt_x (fromNorm plainLayout 0.25 0.75))%js
                     (Num 0 + pt_y (fromNorm plainLayout 0.25 0.75))%js
  = {| pt_x := Num 0.25; pt_y := Num 0.75 |}.
Proof.
  apply (proj1 (toNorm_fromNorm_round_trip 0 0 800 600 0 0 800 600
                  ltac:(lra) ltac:(lra)) 0.25 0.75); lra.
Defined.

(** X6: on a layout whose measures are ordinary numbers, the horizontal
    coordinate of [toNorm] is [NaN] in exactly one situation, a zero-width
    image with the pointer on its left edge. On a zero-width image the
    pointer is otherwise sent to 1 when it is right of the edge and to 0
    when it is left of it; on an image of non-zero width the coordinate is
    always a number of [[0,1]]. *)
Theorem toNorm_x_cases (cl ct cw chh il it iw ih cx cy : R) :
  let L := {| containerRef := Some (mkDOMRect cl ct cw chh);
              imgRef := Some (mkDOMRect il it iw ih) |} in
  let nx := pt_x (toNorm L cx cy) in
  (iw = 0 -> cx = il -> nx = NaN) /\
  (iw = 0 -> il < cx -> nx = Num 1) /\
  (iw = 0 -> cx < il -> nx = Num 0) /\
  (iw <> 0 -> within 0 1 nx) /\
  (nx = NaN -> iw = 0 /\ cx = il).
Proof.
  intros L nx. subst nx L. unfold toNorm, imageDims. cbn.
  autorewrite with js.
  assert (Z : iw = 0 -> cx = il ->
              Math_max 0 (Math_min 1 (Num (cx - cl - (il - cl)) / Num iw)%js)
              = NaN).
  { intros -> ->. replace (il - cl - (il - cl)) with 0 by lra.
    rewrite div_zero_zero. reflexivity. }
  assert (P : iw = 0 -> il < cx ->
              Math_max 0 (Math_min 1 (Num (cx - cl - (il - cl)) / Num iw)%js)
              = Num 1).
  { intros -> Hlt. unfold div, Reqb.
    destruct (Req_dec_T 0 0) as [_|n]; [|exfalso; apply n; reflexivity].
    destruct (Req_dec_T (cx - cl - (il - cl)) 0); [lra|].
    unfold Rltb. destruct (Rlt_dec 0 (cx - cl - (il - cl))); [|lra].
    unfold Math_max, Math_min, inf_of_sign, lt, Rltb. cbn.
    destruct (Rlt_dec 0 1); [reflexivity | lra]. }
  assert (N : iw = 0 -> cx < il ->
              Math_max 0 (Math_min 1 (Num (cx - cl - (il - cl)) / Num iw)%js)
              = Num 0).
  { intros -> Hlt. unfold div, Reqb.
    destruct (Req_dec_T 0 0) as [_|n]; [|exfalso; apply n; reflexivity].
    destruct (Req_dec_T (cx - cl - (il - cl)) 0); [lra|].
    unfold Rltb. destruct (Rlt_dec 0 (cx - cl - (il - cl))); [lra|].
    reflexivity. }
  assert (W : iw <> 0 ->
              within 0 1
                (Math_max 0
                   (Math_min 1 (Num (cx - cl - (il - cl)) / Num iw)%js))).
  { intros Hw. rewrite div_Num_nonzero by assumption.
    destruct (clamp01_cases (Num ((cx - cl - (il - cl)) / iw)))
      as [[H _]|[_ H]]; [discriminate | exact H]. }
  repeat split; try assumption.
  - destruct (Req_dec_T iw 0) as [E|E]; [exact E|].
    destruct (W E) as (r & Hr & _). congruence.
  - destruct (Req_dec_T iw 0) as [E|E].
    + destruct (Rtotal_order cx il) as [Hlt|[Heq|Hgt]]; [|exact Heq|].
      * rewrite (N E Hlt) in H. discriminate.
      * rewrite (P E Hgt) in H. discriminate.
    + destruct (W E) as (r & Hr & _). congruence.
Qed.

Lemma toNorm_x_cases_witness :
  pt_x (toNorm unsizedImage 500 2) = Num 1 /\
  pt_x (toNorm unsizedImage 300 2) = Num 0 /\
  within 0 1 (pt_x (toNorm plainLayout 300 2)).
Proof.
  pose proof (toNorm_x_cases 0 0 800 600 400 2 0 0 500 2) as (_ & H1 & _).
  pose proof (toNorm_x_cases 0 0 800 600 400 2 0 0 300 2) as (_ & _ & H2 & _).
  pose proof (toNorm_x_cases 0 0 800 600 0 0 800 600 300 2)
    as (_ & _ & _ & H3 & _).
  split; [apply H1; [reflexivity | lra]|].
  split; [apply H2; [reflexivity | lra]|].
  apply H3. lra.
Defined.

Lemma segment_min_before (A B C D t : R) :
  0 < C * C + D * D ->
  (A * C + B * D) / (C * C + D * D) < 0 ->
  0 <= t ->
  A * A + B * B <= (A - t * C) * (A - t * C) + (B - t * D) * (B - t * D).
Proof.
  intros HL Hp Ht.
  assert (Hdot : A * C + B * D < 0).
  { replace (A * C + B * D)
      with ((A * C + B * D) / (C * C + D * D) * (C * C + D * D))
      by (field; lra).
    nra. }
  assert (0 <= t * - (A * C + B * D)) by (apply Rmult_le_pos; lra).
  assert (0 <= (t * t) * (C * C + D * D))
    by (apply Rmult_le_pos; [apply Rle_0_sqr | lra]).
  nra.
Qed.

Lemma segment_min_after (A B C D t : R) :
  0 < C * C + D * D ->
  1 < (A * C + B * D) / (C * C + D * D) ->
  t <= 1 ->
  (A - C) * (A - C) + (B - D) * (B - D)
  <= (A - t * C) * (A - t * C) + (B - t * D) * (B - t * D).
Proof.
  intros HL Hp Ht.
  assert (Hdot : C * C + D * D < A * C + B * D).
  { replace (A * C + B * D)
      with ((A * C + B * D) / (C * C + D * D) * (C * C + D * D))
      by (field; lra).
    nra. }
  assert (0 <= (1 - t) *
                (2 * (A * C + B * D) - (1 + t) * (C * C + D * D))).
  { apply Rmult_le_pos; [lra|]. nra. }
  nra.
Qed.

Lemma segment_min_inside (A B C D t : R) :
  0 < C * C + D * D ->
  let p := (A * C + B * D) / (C * C + D * D) in
  (A - p * C) * (A - p * C) + (B - p * D) * (B - p * D)
  <= (A - t * C) * (A - t * C) + (B - t * D) * (B - t * D).
Proof.
  intros HL p.
  assert (Hp : A * C + B * D = p * (C * C + D * D))
    by (unfold p; field; lra).
  assert (E : (A - t * C) * (A - t * C) + (B - t * D) * (B - t * D)
              - ((A - p * C) * (A - p * C) + (B - p * D) * (B - p * D))
              = - 2 * (t - p) * (A * C + B * D)
                + (t * t - p * p) * (C * C + D * D)) by ring.
  rewrite Hp in E.
  assert (0 <= (C * C + D * D) * ((t - p) * (t - p)))
    by (apply Rmult_le_pos; [lra | apply Rle_0_sqr]).
  nra.
Qed.

(** X7: on ordinary numbers [distanceToLine] is the distance from the
    point to the segment: the result is a non-negative number, it is the
    distance to some point of the segment, and no point of the segment is
    closer. A segment of zero length is handled without dividing by its
    length. *)
Theorem distanceToLine_is_segment_distance (px py x1 y1 x2 y2 : R) :
  exists d t0 : R,
    distanceToLine px py x1 y1 x2 y2 = Num d /\
    0 <= d /\
    0 <= t0 <= 1 /\
    d = dist px py (along x1 x2 t0) (along y1 y2 t0) /\
    forall t, 0 <= t <= 1 ->
      d <= dist px py (along x1 x2 t) (along y1 y2 t).
Proof.
  unfold distanceToLine. autorewrite with js.
  pose proof (sum_sq_nonneg (x2 - x1) (y2 - y1)) as HL.
  unfold strict_neq, Reqb.
  destruct (Req_dec_T ((x2 - x1) * (x2 - x1) + (y2 - y1) * (y2 - y1)) 0)
    as [Hz|Hnz]; cbn [negb].
  - (* a segment reduced to a point *)
    destruct (Rplus_sqr_eq_0 (x2 - x1) (y2 - y1) Hz) as [HC HD].
    unfold lt, Rltb. destruct (Rlt_dec (-1) 0) as [_|n]; [|lra].
    autorewrite with js. rewrite Math_sqrt_Num by apply sum_sq_nonneg.
    exists (sqrt ((px - x1) * (px - x1) + (py - y1) * (py - y1))), 0.
    split; [reflexivity|]. split; [apply sqrt_pos|]. split; [lra|].
    unfold dist, along. split.
    + f_equal. ring.
    + intros t _. rewrite HC, HD. apply Req_le. f_equal. ring.
  - rewrite div_Num_nonzero by assumption.
    assert (HL' : 0 < (x2 - x1) * (x2 - x1) + (y2 - y1) * (y2 - y1))
      by lra.
    set (p := ((px - x1) * (x2 - x1) + (py - y1) * (y2 - y1)) /
              ((x2 - x1) * (x2 - x1) + (y2 - y1) * (y2 - y1))).
    unfold gt, lt, Rltb.
    destruct (Rlt_dec p 0) as [Hneg|Hnn].
    + autorewrite with js. rewrite Math_sqrt_Num by apply sum_sq_nonneg.
      exists (sqrt ((px - x1) * (px - x1) + (py - y1) * (py - y1))), 0.
      split; [reflexivity|]. split; [apply sqrt_pos|]. split; [lra|].
      unfold dist, along. split; [f_equal; ring|].
      intros t [Ht0 Ht1]. apply sqrt_le_1_alt.
      replace (px - (x1 + t * (x2 - x1))) with (px - x1 - t * (x2 - x1))
        by ring.
      replace (py - (y1 + t * (y2 - y1))) with (py - y1 - t * (y2 - y1))
        by ring.
      apply segment_min_before; assumption.
    + destruct (Rlt_dec 1 p) as [Hbig|Hin].
      * autorewrite with js. rewrite Math_sqrt_Num by apply sum_sq_nonneg.
        exists (sqrt ((px - x2) * (px - x2) + (py - y2) * (py - y2))), 1.
        split; [reflexivity|]. split; [apply sqrt_pos|]. split; [lra|].
        unfold dist, along. split; [f_equal; ring|].
        intros t [Ht0 Ht1]. apply sqrt_le_1_alt.
        replace (px - x2) with (px - x1 - (x2 - x1)) by ring.
        replace (py - y2) with (py - y1 - (y2 - y1)) by ring.
        replace (px - (x1 + t * (x2 - x1))) with (px - x1 - t * (x2 - x1))
          by ring.
        replace (py - (y1 + t * (y2 - y1))) with (py - y1 - t * (y2 - y1))
          by ring.
        apply segment_min_after; assumption.
      * autorewrite with js. rewrite Math_sqrt_Num by apply sum_sq_nonneg.
        exists (sqrt ((px - (x1 + p * (x2 - x1))) *
                      (px - (x1 + p * (x2 - x1))) +
                      (py - (y1 + p * (y2 - y1))) *
                      (py - (y1 + p * (y2 - y1))))), p.
        split; [reflexivity|]. split; [apply sqrt_pos|]. split; [lra|].
        unfold dist, along. split; [reflexivity|].
        intros t [Ht0 Ht1]. apply sqrt_le_1_alt.
        replace (px - (x1 + p * (x2 - x1))) with (px - x1 - p * (x2 - x1))
          by ring.
        replace (py - (y1 + p * (y2 - y1))) with (py - y1 - p * (y2 - y1))
          by ring.
        replace (px - (x1 + t * (x2 - x1))) with (px - x1 - t * (x2 - x1))
          by ring.
        replace (py - (y1 + t * (y2 - y1))) with (py - y1 - t * (y2 - y1))
          by ring.
        apply segment_min_inside. assumption.
Qed.

(* ================================================================== *)
(** ** Normalized coordinates are an invariant of the session *)

Arguments toNorm : simpl never.

Lemma toNorm_unit (L : Layout) (e : PointerEvent) :
  laid_out L -> finite_event e ->
  unit_point (toNorm L (clientX e) (clientY e)).
Proof.
  intros (cl & ct & cw & chh & il & it & iw & ih & Hw & Hh & ->)
         (cx & cy & ->).
  exact (toNorm_in_unit_square cl ct cw chh il it iw ih cx cy Hw Hh).
Qed.

Ltac split5 := split; [|split; [|split; [|split]]].

Lemma ok_onChange v s :
  Forall normalized v -> session_ok s -> session_ok (onChange v s).
Proof. intros Hv (Ha & Hu & Hr & Hd & Hg). split5; assumption. Qed.

Lemma ok_setUndoStack v s :
  sets_ok v -> session_ok s -> session_ok (setUndoStack v s).
Proof. intros Hv (Ha & Hu & Hr & Hd & Hg). split5; assumption. Qed.

Lemma ok_setRedoStack v s :
  sets_ok v -> session_ok s -> session_ok (setRedoStack v s).
Proof. intros Hv (Ha & Hu & Hr & Hd & Hg). split5; assumption. Qed.

Lemma ok_setDrawing d s :
  (forall d', d = Some d' -> drawing_ok d') ->
  session_ok s -> session_ok (setDrawing d s).
Proof. intros Hv (Ha & Hu & Hr & Hd & Hg). split5; assumption. Qed.

Lemma ok_setDragRef r s :
  (forall dr, r = Some dr -> dragRef_ok dr) ->
  session_ok s -> session_ok (setDragRef r s).
Proof. intros Hv (Ha & Hu & Hr & Hd & Hg). split5; assumption. Qed.

Lemma ok_setSelectedId v s : session_ok s -> session_ok (setSelectedId v s).
Proof. intros (Ha & Hu & Hr & Hd & Hg). split5; assumption. Qed.

Lemma ok_setEditingTextId v s :
  session_ok s -> session_ok (setEditingTextId v s).
Proof. intros (Ha & Hu & Hr & Hd & Hg). split5; assumption. Qed.

Lemma ok_setIsDragging v s : session_ok s -> session_ok (setIsDragging v s).
Proof. intros (Ha & Hu & Hr & Hd & Hg). split5; assumption. Qed.

Lemma ok_setTool v s : session_ok s -> session_ok (setTool v s).
Proof. intros (Ha & Hu & Hr & Hd & Hg). split5; assumption. Qed.

Lemma ok_onBaseImageChange v s :
  session_ok s -> session_ok (onBaseImageChange v s).
Proof. intros (Ha & Hu & Hr & Hd & Hg). split5; assumption. Qed.

Lemma ok_snapshot s :
  session_ok s -> sets_ok (undoStack s ++ [annotations s]).
Proof.
  intros (Ha & Hu & _). apply Forall_app. split; [exact Hu|].
  constructor; [exact Ha | constructor].
Qed.

Lemma ok_pushHistory next s :
  Forall normalized next -> session_ok s -> session_ok (pushHistory next s).
Proof.
  intros Hn Hs. unfold pushHistory.
  apply ok_onChange; [exact Hn|]. apply ok_setRedoStack; [constructor|].
  apply ok_setUndoStack; [apply ok_snapshot; exact Hs | exact Hs].
Qed.

Ltac ok_setters :=
  repeat match goal with
    | |- session_ok (setSelectedId _ _) => apply ok_setSelectedId
    | |- session_ok (setEditingTextId _ _) => apply ok_setEditingTextId
    | |- session_ok (setIsDragging _ _) => apply ok_setIsDragging
    | |- session_ok (setTool _ _) => apply ok_setTool
    | |- session_ok (onBaseImageChange _ _) => apply ok_onBaseImageChange
    | |- session_ok (pushHistory _ _) => apply ok_pushHistory
    | |- session_ok (onChange _ _) => apply ok_onChange
    | |- session_ok (setUndoStack _ _) => apply ok_setUndoStack
    | |- session_ok (setRedoStack _ _) => apply ok_setRedoStack
    | |- session_ok (setDrawing _ _) => apply ok_setDrawing
    | |- session_ok (setDragRef _ _) => apply ok_setDragRef
    end.

Lemma Forall_setAt {A : Type} (P : A -> Prop) (l : list A) (idx : nat)
    (v : A) :
  Forall P l -> P v -> Forall P (setAt idx v l).
Proof.
  intros Hl Hv. revert idx. induction Hl as [|a l Ha Hl IH]; intros [|idx];
    cbn; constructor; auto.
Qed.

Lemma Forall_removeById (P : Annotation -> Prop) (i : string)
    (l : list Annotation) :
  Forall P l -> Forall P (removeById i l).
Proof.
  intros Hl. apply Forall_forall. intros x Hx.
  apply filter_In in Hx. destruct Hx as [Hx _].
  exact (proj1 (Forall_forall P l) Hl x Hx).
Qed.

Lemma normalized_spread (a : Annotation) (p : Partial) :
  normalized a -> normalized (spread a p).
Proof. destruct a; cbn; auto. Qed.

Lemma within_Num (lo hi : R) (v : number) :
  within lo hi v -> exists r, v = Num r /\ lo <= r <= hi.
Proof. auto. Qed.

Lemma normalized_dragUpdate (dr : DragRef) (norm : Point) (a : Annotation) :
  dragRef_ok dr -> unit_point norm -> normalized a ->
  normalized (dragUpdate dr norm a).
Proof.
  intros (px & py & Hpx & Hpy) [(nx & Hnx & Bx) (ny & Hny & By)] Ha.
  destruct dr as [m i c px' py']. cbn in Hpx, Hpy. subst px' py'.
  destruct norm as [nx' ny']. cbn in Hnx, Hny. subst nx' ny'.
  destruct m, a as [b pts o|b x y w h|b x1 y1 x2 y2|b x y t];
    cbn [dragUpdate mode corner prevX prevY pt_x pt_y]; try exact Ha.
  - (* move, pen *)
    cbn in Ha. cbn [normalized].
    induction Ha as [|p pts Hp _ IH]; cbn [map]; constructor; [|exact IH].
    destruct p as [x y]. destruct Hp as [(xr & Hx & _) (yr & Hy & _)].
    cbn in Hx, Hy. subst x y. cbn [pt_x pt_y].
    autorewrite with js. split; apply clamp_unit.
  - (* move, rectangle *)
    destruct Ha as (xr & yr & wr & hr & -> & -> & -> & -> & H).
    autorewrite with js.
    destruct (clamp_Num (xr + (nx - px)) 0 (1 - wr)) as (x' & Ex & Hx & _);
      [lra|].
    destruct (clamp_Num (yr + (ny - py)) 0 (1 - hr)) as (y' & Ey & Hy & _);
      [lra|].
    rewrite Ex, Ey. exists x', y', wr, hr. repeat split; lra.
  - (* move, arrow *)
    destruct Ha as ((a1 & -> & _) & (b1 & -> & _) & (a2 & -> & _)
                    & (b2 & -> & _)).
    autorewrite with js. repeat split; apply clamp_unit.
  - (* move, text *)
    destruct Ha as ((a1 & -> & _) & (b1 & -> & _)).
    autorewrite with js. split; apply clamp_unit.
  - (* resize *)
    destruct Ha as (xr & yr & wr & hr & -> & -> & -> & -> & H).
    destruct c as [[| | |]|]; autorewrite with js.
    + destruct (clamp_Num nx 0 (xr + wr)) as (rx & Ex & Hrx & _); [lra|].
      destruct (clamp_Num ny 0 (yr + hr)) as (ry & Ey & Hry & _); [lra|].
      rewrite Ex, Ey. autorewrite with js.
      exists rx, ry, (xr + wr - rx), (yr + hr - ry). repeat split; lra.
    + destruct (clamp_Num (nx - xr) 0 (1 - xr)) as (rw & Ew & Hrw & _);
        [lra|].
      destruct (clamp_Num ny 0 (yr + hr)) as (ry & Ey & Hry & _); [lra|].
      rewrite Ew, Ey. autorewrite with js.
      exists xr, ry, rw, (yr + hr - ry). repeat split; lra.
    + destruct (clamp_Num nx 0 (xr + wr)) as (rx & Ex & Hrx & _); [lra|].
      destruct (clamp_Num (ny - yr) 0 (1 - yr)) as (rh & Eh & Hrh & _);
        [lra|].
      rewrite Ex, Eh. autorewrite with js.
      exists rx, yr, (xr + wr - rx), rh. repeat split; lra.
    + destruct (clamp_Num (nx - xr) 0 (1 - xr)) as (rw & Ew & Hrw & _);
        [lra|].
      destruct (clamp_Num (ny - yr) 0 (1 - yr)) as (rh & Eh & Hrh & _);
        [lra|].
      rewrite Ew, Eh. exists xr, yr, rw, rh. repeat split; lra.
    + exists xr, yr, wr, hr. repeat split; lra.
  - (* arrow start *)
    destruct Ha as (_ & _ & H2 & H3).
    repeat split; try assumption; apply clamp_unit.
  - (* arrow end *)
    destruct Ha as (H0 & H1 & _ & _).
    repeat split; try assumption; apply clamp_unit.
Qed.

Lemma Forall_snoc {A : Type} (P : A -> Prop) (l : list A) (a : A) :
  Forall P l -> P a -> Forall P (l ++ [a]).
Proof.
  intros Hl Ha. apply Forall_app. split; [exact Hl|].
  constructor; [exact Ha | constructor].
Qed.

Lemma min_abs_box (s c : R) :
  0 <= s <= 1 -> 0 <= c <= 1 ->
  exists x w : R,
    Math_min (Num s) (Num c) = Num x /\
    Math_abs (Num c - Num s) = Num w /\
    0 <= x /\ 0 <= w /\ x + w <= 1.
Proof.
  intros Hs Hc. autorewrite with js.
  unfold Math_min, lt, Rltb.
  destruct (Rlt_dec c s); eexists; eexists;
    (split; [reflexivity|]; split; [reflexivity|]);
    unfold Rabs; destruct (Rcase_abs (c - s)); lra.
Qed.

Lemma ok_finishDrawing (newId : string) (d : Drawing) (s : State) :
  session_ok s -> drawing_ok d -> session_ok (finishDrawing newId d s).
Proof.
  intros Hs (Hsx & Hsy & Hpts & Hcx & Hcy).
  pose proof Hs as (Ha & _).
  unfold finishDrawing, commitNew.
  destruct (d_type d); try exact Hs.
  - (* pen *)
    destruct (d_points d) as [pts|] eqn:Hp; [|exact Hs].
    destruct (1 <? List.length pts)%nat; [|exact Hs].
    ok_setters; [|exact Hs].
    apply Forall_snoc; [exact Ha|]. cbn. apply Hpts. reflexivity.
  - (* rectangle *)
    destruct (d_points d); destruct (currentX d) as [cx|] eqn:Hx;
      try exact Hs; destruct (currentY d) as [cy|] eqn:Hy; try exact Hs.
    all: destruct (_ && _); [|exact Hs].
    all: ok_setters; [|exact Hs].
    all: apply Forall_snoc; [exact Ha|].
    all: destruct Hsx as (sx & -> & Bsx); destruct Hsy as (sy & -> & Bsy).
    all: destruct (Hcx cx eq_refl) as (rx & -> & Brx).
    all: destruct (Hcy cy eq_refl) as (ry & -> & Bry).
    all: destruct (min_abs_box sx rx Bsx Brx) as (x & w & -> & -> & Hb1).
    all: destruct (min_abs_box sy ry Bsy Bry) as (y & h & -> & -> & Hb2).
    all: exists x, y, w, h; repeat split; lra.
  - (* arrow *)
    destruct (d_points d); destruct (currentX d) as [cx|] eqn:Hx;
      try exact Hs; destruct (currentY d) as [cy|] eqn:Hy; try exact Hs.
    all: destruct (_ >? _)%js; [|exact Hs].
    all: ok_setters; [|exact Hs].
    all: apply Forall_snoc; [exact Ha|].
    all: cbn; repeat split; auto.
Qed.

Lemma ok_onPointerUp (L : Layout) (newId : string) (e : PointerEvent)
    (s : State) :
  session_ok s -> session_ok (onPointerUp L newId e s).
Proof.
  intros Hs. unfold onPointerUp.
  destruct (negb (truthy (baseImage s))); [exact Hs|].
  ok_setters; try discriminate.
  destruct (drawing s) as [d|] eqn:Hd; [|exact Hs].
  apply ok_finishDrawing; [exact Hs|].
  destruct Hs as (_ & _ & _ & H & _). apply H. exact Hd.
Qed.

Lemma ok_onPointerDown (L : Layout) (newId : string) (e : PointerEvent)
    (s : State) :
  laid_out L -> finite_event e ->
  session_ok s -> session_ok (onPointerDown L newId e s).
Proof.
  intros HL He Hs. pose proof (toNorm_unit L e HL He) as [Hnx Hny].
  pose proof Hs as (Ha & _).
  unfold onPointerDown.
  destruct (negb (truthy (baseImage s))); [exact Hs|].
  destruct (tool s).
  - (* select *)
    destruct (getAnnotationAt _ _ _ _) as [h|];
      [|ok_setters; exact Hs].
    destruct (negb (h =? "")%string); [|ok_setters; exact Hs].
    destruct (find (has_id h) (annotations s)) as [a|];
      [|ok_setters; exact Hs].
    destruct (containerRef L) as [crect|]; [|ok_setters; exact Hs].
    destruct (pickDrag L _ _ a) as [m c].
    ok_setters; [constructor | apply ok_snapshot; exact Hs |].
    assert (Hdr : session_ok
              (setIsDragging true
                 (setDragRef
                    (Some {| mode := m; dr_id := h; corner := c;
                             prevX := pt_x (toNorm L (clientX e) (clientY e));
                             prevY := pt_y (toNorm L (clientX e) (clientY e))
                          |})
                    (setSelectedId (Some h) s)))).
    { ok_setters; [|exact Hs].
      intros dr [= <-]. destruct Hnx as (x & Ex & _).
      destruct Hny as (y & Ey & _). exists x, y. cbn. auto. }
    destruct a; exact Hdr.
  - (* pen *)
    ok_setters; [|exact Hs]. intros d [= <-].
    repeat split; cbn; try assumption; try discriminate.
    intros pts [= <-]. constructor; [split; assumption | constructor].
  - (* rectangle *)
    ok_setters; [|exact Hs]. intros d [= <-].
    repeat split; cbn; try assumption; try discriminate;
      intros v [= <-]; assumption.
  - (* arrow *)
    ok_setters; [|exact Hs]. intros d [= <-].
    repeat split; cbn; try assumption; try discriminate;
      intros v [= <-]; assumption.
  - (* text *)
    ok_setters; [|exact Hs].
    apply Forall_snoc; [exact Ha|]. cbn. split; assumption.
  - (* erase *)
    destruct (getAnnotationAt _ _ _ _) as [h|]; [|exact Hs].
    destruct (negb (h =? "")%string); [|exact Hs].
    destruct (opt_is (selectedId s) h); ok_setters; try exact Hs;
      apply Forall_removeById; exact Ha.
Qed.

Lemma ok_onPointerMove (L : Layout) (e : PointerEvent) (s : State) :
  laid_out L -> finite_event e ->
  session_ok s -> session_ok (onPointerMove L e s).
Proof.
  intros HL He Hs. pose proof (toNorm_unit L e HL He) as Hn.
  pose proof Hn as [Hnx Hny].
  pose proof Hs as (Ha & _ & _ & Hd & Hg).
  unfold onPointerMove.
  destruct (negb (truthy (baseImage s))); [exact Hs|].
  destruct (drawing s) as [d|] eqn:Ed.
  - destruct (Hd d eq_refl) as (Hsx & Hsy & Hpts & Hcx & Hcy).
    destruct (d_type d); try exact Hs; ok_setters; try exact Hs;
      intros d' [= <-]; repeat split; cbn; try assumption;
      try (intros v [= <-]; assumption).
    intros pts [= <-]. apply Forall_snoc; [|exact Hn].
    destruct (d_points d) as [pts|]; cbn; [|constructor].
    apply Hpts. reflexivity.
  - destruct (isDragging s && truthy (selectedId s)
              && ToolType_eqb (tool s) select); [|exact Hs].
    destruct (dragRef s) as [dr|] eqn:Er; [|exact Hs].
    destruct (findIndex _ _) as [idx|]; [|exact Hs].
    destruct (nth_error (annotations s) idx) as [a|] eqn:En; [|exact Hs].
    ok_setters; [| |exact Hs].
    + intros dr' [= <-]. destruct Hnx as (x & Ex & _).
      destruct Hny as (y & Ey & _). exists x, y. cbn. auto.
    + apply Forall_setAt; [exact Ha|].
      apply normalized_dragUpdate; [apply Hg; reflexivity | exact Hn |].
      apply nth_error_In in En.
      exact (proj1 (Forall_forall _ _) Ha a En).
Qed.

Lemma ok_updateSelectedAnnotation (p : Partial) (s : State) :
  session_ok s -> session_ok (updateSelectedAnnotation p s).
Proof.
  intros Hs. pose proof Hs as (Ha & _). unfold updateSelectedAnnotation.
  destruct (selectedId s) as [sid|]; [|exact Hs].
  destruct (negb (sid =? "")%string); [|exact Hs].
  destruct (findIndex _ _) as [idx|]; [|exact Hs].
  destruct (nth_error (annotations s) idx) as [a|] eqn:En; [|exact Hs].
  ok_setters; [|exact Hs].
  apply Forall_setAt; [exact Ha|]. apply normalized_spread.
  apply nth_error_In in En. exact (proj1 (Forall_forall _ _) Ha a En).
Qed.

Lemma sets_ok_last (u : list (list Annotation)) (p : list Annotation) :
  sets_ok (u ++ [p]) -> sets_ok u /\ Forall normalized p.
Proof.
  intros H. apply Forall_app in H. destruct H as [Hu Hp].
  split; [exact Hu|]. inversion Hp; assumption.
Qed.

Lemma ok_undo (s : State) : session_ok s -> session_ok (undo s).
Proof.
  intros Hs. destruct (undoStack s) as [|x l] eqn:E.
  - unfold undo. rewrite E. exact Hs.
  - assert (Hne : undoStack s <> []) by (rewrite E; discriminate).
    destruct (exists_last Hne) as (u & p & Hu).
    rewrite (undo_nonempty s u p Hu).
    pose proof Hs as (Ha & Hus & Hrs & _).
    rewrite Hu in Hus. destruct (sets_ok_last _ _ Hus) as [Hu' Hp].
    ok_setters; try assumption.
    apply Forall_snoc; assumption.
Qed.

Lemma ok_redo (s : State) : session_ok s -> session_ok (redo s).
Proof.
  intros Hs. destruct (redoStack s) as [|x l] eqn:E.
  - unfold redo. rewrite E. exact Hs.
  - assert (Hne : redoStack s <> []) by (rewrite E; discriminate).
    destruct (exists_last Hne) as (r & n & Hr).
    rewrite (redo_nonempty s r n Hr).
    pose proof Hs as (Ha & Hus & Hrs & _).
    rewrite Hr in Hrs. destruct (sets_ok_last _ _ Hrs) as [Hr' Hn].
    ok_setters; try assumption.
    apply ok_snapshot. exact Hs.
Qed.

Lemma ok_perform (s : State) (a : Action) :
  on_laid_out_image a -> session_ok s -> session_ok (perform s a).
Proof.
  intros Hl Hs. pose proof Hs as (Ha & _).
  destruct a; cbn [perform on_laid_out_image] in *.
  - destruct Hl. apply ok_onPointerDown; assumption.
  - destruct Hl. apply ok_onPointerMove; assumption.
  - apply ok_onPointerUp; assumption.
  - unfold clearAll. destruct (annotations s); [exact Hs|].
    ok_setters; [constructor | exact Hs].
  - unfold removeImage. ok_setters; [constructor | exact Hs].
  - unfold removeSelected. destruct (selectedId s) as [sid|]; [|exact Hs].
    destruct (negb (sid =? "")%string); [|exact Hs].
    ok_setters; [|exact Hs]. apply Forall_removeById. exact Ha.
  - unfold removeFromList.
    destruct (opt_is (selectedId s) i); ok_setters; try exact Hs;
      apply Forall_removeById; exact Ha.
  - apply ok_updateSelectedAnnotation. exact Hs.
  - unfold onImageFileChange. destruct file as [[data|]|]; try exact Hs.
    ok_setters; [constructor | exact Hs].
  - ok_setters. exact Hs.
  - ok_setters. exact Hs.
Qed.

(** X8: normalized coordinates are an invariant of the editor. Starting
    from a session whose stored coordinates are all normalized (the current
    set, the history snapshots, the drawing and drag in progress), every
    action on a laid-out image, and every undo and redo, leads to such a
    session again; so does any sequence of actions from a fresh session on
    a normalized set. *)
Theorem normalized_coordinates_invariant :
  (forall s a,
      session_ok s -> on_laid_out_image a -> session_ok (perform s a)) /\
  (forall s, session_ok s -> session_ok (undo s) /\ session_ok (redo s)) /\
  (forall img anns acts,
      Forall normalized anns ->
      Forall on_laid_out_image acts ->
      Forall normalized (annotations (performAll (init img anns) acts))).
Proof.
  split; [|split].
  - intros s a Hs Hl. apply ok_perform; assumption.
  - intros s Hs. split; [apply ok_undo | apply ok_redo]; exact Hs.
  - intros img anns acts Hanns Hacts.
    assert (H0 : session_ok (init img anns)).
    { split5; cbn; try constructor; try assumption; discriminate. }
    revert H0. generalize (init img anns).
    induction Hacts as [|a acts Hl _ IH]; intros s Hs; cbn.
    + destruct Hs as (Ha & _). exact Ha.
    + apply IH. apply ok_perform; assumption.
Qed.

Lemma plainLayout_laid_out : laid_out plainLayout.
Proof.
  exists 0, 0, 800, 600, 0, 0, 800, 600.
  split; [lra|]. split; [lra | reflexivity].
Qed.

Lemma normalized_coordinates_invariant_witness :
  Forall normalized (annotations threeTexts).
Proof.
  apply (proj2 (proj2 normalized_coordinates_invariant)).
  - constructor.
  - repeat constructor; try apply plainLayout_laid_out;
      eexists; eexists; reflexivity.
Defined.

(* ================================================================== *)
(** ** Identifiers, order and attributes *)

Lemma map_setAt {A B : Type} (f : A -> B) (l : list A) (idx : nat)
    (a v : A) :
  nth_error l idx = Some a -> f v = f a -> map f (setAt idx v l) = map f l.
Proof.
  revert idx. induction l as [|b l IH]; intros [|idx] Hn Hf; cbn in *;
    try discriminate.
  - injection Hn as ->. rewrite Hf. reflexivity.
  - f_equal. apply IH; assumption.
Qed.

Lemma dragUpdate_base (dr : DragRef) (norm : Point) (a : Annotation) :
  base_of (dragUpdate dr norm a) = base_of a /\
  ann_type (dragUpdate dr norm a) = ann_type a.
Proof.
  unfold dragUpdate. destruct (mode dr), a; cbn; auto;
    destruct (corner dr) as [[| | |]|]; cbn; auto.
Qed.

Lemma spread_id (a : Annotation) (p : Partial) :
  ann_id (spread a p) = ann_id a /\
  ann_type (spread a p) = ann_type a /\
  same_geometry a (spread a p).
Proof. destruct a; cbn; repeat split. Qed.

Lemma NoDup_ids_filter (f : Annotation -> bool) (l : list Annotation) :
  NoDup (ids l) -> NoDup (ids (filter f l)).
Proof.
  unfold ids. induction l as [|a l IH]; intros H; cbn; [constructor|].
  inversion H as [|x xs Hnot Hrest]; subst.
  destruct (f a); cbn; [|apply IH; exact Hrest].
  constructor; [|apply IH; exact Hrest].
  intros Hin. apply Hnot. apply in_map_iff in Hin.
  destruct Hin as (b & Eb & Hb). apply filter_In in Hb.
  apply in_map_iff. exists b. tauto.
Qed.

Lemma NoDup_ids_snoc (l : list Annotation) (a : Annotation) :
  NoDup (ids l) -> ~ In (ann_id a) (ids l) -> NoDup (ids (l ++ [a])).
Proof.
  unfold ids. intros Hl Ha. rewrite map_app. cbn.
  apply NoDup_rev in Hl. rewrite <- (rev_involutive (_ ++ _)).
  apply NoDup_rev. rewrite rev_app_distr. cbn.
  constructor; [|exact Hl]. rewrite <- in_rev. exact Ha.
Qed.

(** X9: identifiers stay unique. If the annotations of the current set
    have pairwise distinct identifiers and the identifier that a pointer
    event would give to a new annotation is not in use, then the set after
    the action has pairwise distinct identifiers again; the actions that
    create nothing need no assumption. *)
Theorem unique_ids_preserved (s : State) (a : Action) :
  NoDup (ids (annotations s)) ->
  fresh_for s a ->
  NoDup (ids (annotations (perform s a))).
Proof.
  intros Hnd Hfresh.
  destruct a; cbn [perform fresh_for] in *.
  - (* pointer down *)
    unfold onPointerDown.
    destruct (negb (truthy (baseImage s))); [exact Hnd|].
    destruct (tool s); cbn; try exact Hnd.
    + destruct (getAnnotationAt _ _ _ _) as [h|]; [|exact Hnd].
      destruct (negb (h =? "")%string); [|exact Hnd].
      destruct (find _ _) as [a|]; [|exact Hnd].
      destruct (containerRef L); [|exact Hnd].
      destruct (pickDrag _ _ _ a). destruct a; exact Hnd.
    + apply NoDup_ids_snoc; assumption.
    + destruct (getAnnotationAt _ _ _ _) as [h|]; [|exact Hnd].
      destruct (negb (h =? "")%string); [|exact Hnd].
      destruct (opt_is (selectedId s) h); cbn;
        apply NoDup_ids_filter; exact Hnd.
  - (* pointer move *)
    unfold onPointerMove.
    destruct (negb (truthy (baseImage s))); [exact Hnd|].
    destruct (drawing s) as [d|].
    + destruct (d_type d); exact Hnd.
    + destruct (_ && _); [|exact Hnd].
      destruct (dragRef s) as [dr|]; [|exact Hnd].
      destruct (findIndex _ _) as [idx|]; [|exact Hnd].
      destruct (nth_error (annotations s) idx) as [a|] eqn:En; [|exact Hnd].
      cbn. unfold ids.
      rewrite (map_setAt ann_id _ idx a); [exact Hnd | exact En |].
      unfold ann_id. f_equal. apply dragUpdate_base.
  - (* pointer up *)
    unfold onPointerUp.
    destruct (negb (truthy (baseImage s))); [exact Hnd|].
    destruct (drawing s) as [d|]; [|exact Hnd].
    unfold finishDrawing, commitNew.
    destruct (d_type d); try exact Hnd.
    + destruct (d_points d) as [pts|]; [|exact Hnd].
      destruct (_ <? _)%nat; [|exact Hnd].
      cbn. apply NoDup_ids_snoc; assumption.
    + destruct (d_points d); destruct (currentX d); try exact Hnd;
        destruct (currentY d); try exact Hnd;
        destruct (_ && _); try exact Hnd;
        cbn; apply NoDup_ids_snoc; assumption.
    + destruct (d_points d); destruct (currentX d); try exact Hnd;
        destruct (currentY d); try exact Hnd;
        destruct (_ >? _)%js; try exact Hnd;
        cbn; apply NoDup_ids_snoc; assumption.
  - unfold clearAll.
    destruct (annotations s) eqn:E; [rewrite E; constructor | constructor].
  - constructor.
  - unfold removeSelected. destruct (selectedId s) as [sid|]; [|exact Hnd].
    destruct (negb (sid =? "")%string); [|exact Hnd].
    cbn. apply NoDup_ids_filter. exact Hnd.
  - unfold removeFromList.
    destruct (opt_is (selectedId s) i); cbn; apply NoDup_ids_filter;
      exact Hnd.
  - unfold updateSelectedAnnotation.
    destruct (selectedId s) as [sid|]; [|exact Hnd].
    destruct (negb (sid =? "")%string); [|exact Hnd].
    destruct (findIndex _ _) as [idx|]; [|exact Hnd].
    destruct (nth_error (annotations s) idx) as [a|] eqn:En; [|exact Hnd].
    cbn. unfold ids.
    rewrite (map_setAt ann_id _ idx a); [exact Hnd | exact En |].
    apply spread_id.
  - unfold onImageFileChange. destruct file as [[data|]|]; try exact Hnd.
    constructor.
  - exact Hnd.
  - exact Hnd.
Qed.

Lemma unique_ids_preserved_witness :
  NoDup (ids (annotations
                (onPointerDown plainLayout "ann_4" (pointerAt 80 60)
                   (setTool text twoRects)))).
Proof.
  apply (unique_ids_preserved (setTool text twoRects)
           (PointerDown plainLayout "ann_4" (pointerAt 80 60))).
  - cbn. repeat constructor; cbn; intuition discriminate.
  - cbn. intuition discriminate.
Defined.

(** X10: a pointer-move never adds, removes, reorders or re-types an
    annotation and never touches an identifier, a color, a size or a field
    link: whatever the tool, the drag mode and the pointer position, the
    shared attributes and the variants of the set are, position by
    position, the ones from before the move. *)
Theorem onPointerMove_keeps_attributes (L : Layout) (e : PointerEvent)
    (s : State) :
  map base_of (annotations (onPointerMove L e s))
    = map base_of (annotations s) /\
  map ann_type (annotations (onPointerMove L e s))
    = map ann_type (annotations s).
Proof.
  unfold onPointerMove.
  destruct (negb (truthy (baseImage s))); [auto|].
  destruct (drawing s) as [d|].
  - destruct (d_type d); auto.
  - destruct (_ && _); [|auto].
    destruct (dragRef s) as [dr|]; [|auto].
    destruct (findIndex _ _) as [idx|]; [|auto].
    destruct (nth_error (annotations s) idx) as [a|] eqn:En; [|auto].
    cbn. split; apply (map_setAt _ _ idx a); try exact En;
      apply dragUpdate_base.
Qed.

(** X11: what an Erase-tool hit deletes is gone for the hit test too.
    After pointer-down with the Erase tool has hit the annotation
    identified by [h], no annotation of the set carries [h] any more, and a
    hit test at any position never answers [h]. *)
Theorem erased_id_is_never_hit_again (L : Layout) (newId : string)
    (e : PointerEvent) (s : State) (h : string) :
  truthy (baseImage s) = true ->
  tool s = erase ->
  getAnnotationAt L (annotations s) (clientX e) (clientY e) = Some h ->
  h <> ""%string ->
  let s' := onPointerDown L newId e s in
  annotations s' = removeById h (annotations s) /\
  ~ In h (ids (annotations s')) /\
  forall L' cx cy, getAnnotationAt L' (annotations s') cx cy <> Some h.
Proof.
  intros Hb Ht Hhit Hne s'.
  assert (E : annotations s' = removeById h (annotations s)).
  { subst s'. unfold onPointerDown. rewrite Hb, Ht, Hhit.
    apply String.eqb_neq in Hne. rewrite Hne. cbn [negb].
    destruct (opt_is (selectedId s) h); reflexivity. }
  assert (Hgone : ~ In h (ids (annotations s'))).
  { rewrite E. unfold ids, removeById. intros Hin.
    apply in_map_iff in Hin. destruct Hin as (a & Ea & Ha).
    apply filter_In in Ha. destruct Ha as [_ Hf].
    unfold has_id in Hf. rewrite Ea, String.eqb_refl in Hf. discriminate. }
  split; [exact E|]. split; [exact Hgone|].
  intros L' cx cy Hagain.
  destruct (getAnnotationAt_some _ _ _ _ _ Hagain) as (a & Hin & Ea & _).
  apply Hgone. unfold ids. rewrite <- Ea. apply in_map. exact Hin.
Qed.

Lemma erased_id_is_never_hit_again_witness :
  annotations
    (onPointerDown plainLayout "ann_9" (pointerAt 160 120)
       (setTool erase oneRect)) = [].
Proof.
  refine (proj1 (erased_id_is_never_hit_again plainLayout "ann_9"
                   (pointerAt 160 120) (setTool erase oneRect) "bottom"
                   eq_refl eq_refl _ _)).
  - rewrite getAnnotationAt_find. unfold pointerAt.
    cbn [clientX clientY]. rewrite toNorm_plain by lra.
    assert (Hh : hits {| pt_x := Num (160 / 800); pt_y := Num (120 / 600) |}
                   bottomRect = true) by (cbn; js_compare).
    cbn [oneRect init setTool annotations rev app find option_map].
    rewrite Hh. reflexivity.
  - discriminate.
Defined.

Lemma findIndex_nth {A : Type} (f : A -> bool) (l : list A) (i : nat) :
  findIndex f l = Some i ->
  exists a, nth_error l i = Some a /\ f a = true.
Proof.
  revert i. induction l as [|b l IH]; intros i H; cbn in H; [discriminate|].
  destruct (f b) eqn:Hb.
  - injection H as <-. exists b. auto.
  - destruct (findIndex f l) as [j|]; [|discriminate].
    injection H as <-. destruct (IH j eq_refl) as (a & Ha & Hf).
    exists a. auto.
Qed.

(** X12: editing the selected annotation changes its attributes and
    nothing else. When the selection names an annotation of the set,
    [updateSelectedAnnotation] commits a set in which that annotation (the
    first one carrying the identifier) keeps its identifier, its variant and
    its geometry, and every other position is untouched; when there is no
    selection, or the selected identifier is not in the set, the state is
    left alone and no history entry is made. *)
Theorem updateSelectedAnnotation_frame (p : Partial) (s : State) :
  (forall sid idx,
      selectedId s = Some sid -> sid <> ""%string ->
      findIndex (has_id sid) (annotations s) = Some idx ->
      let s' := updateSelectedAnnotation p s in
      exists a,
        nth_error (annotations s) idx = Some a /\
        ann_id a = sid /\
        nth_error (annotations s') idx = Some (spread a p) /\
        ann_id (spread a p) = sid /\
        ann_type (spread a p) = ann_type a /\
        same_geometry a (spread a p) /\
        (forall j, j <> idx ->
           nth_error (annotations s') j = nth_error (annotations s) j) /\
        pushed s s') /\
  (truthy (selectedId s) = false -> updateSelectedAnnotation p s = s) /\
  (forall sid,
      selectedId s = Some sid ->
      findIndex (has_id sid) (annotations s) = None ->
      updateSelectedAnnotation p s = s).
Proof.
  split; [|split].
  - intros sid idx Hsel Hne Hidx s'. subst s'.
    destruct (findIndex_nth _ _ _ Hidx) as (a & Hn & Hf).
    unfold has_id in Hf. apply String.eqb_eq in Hf.
    destruct (spread_id a p) as (Hi & Ht & Hg).
    exists a. unfold updateSelectedAnnotation.
    apply String.eqb_neq in Hne. rewrite Hsel, Hne, Hidx, Hn. cbn.
    split; [reflexivity|]. split; [exact Hf|].
    split; [eapply setAt_same; exact Hn|].
    split; [congruence|]. split; [exact Ht|]. split; [exact Hg|].
    split; [intros j Hj; apply setAt_other; exact Hj|].
    split; reflexivity.
  - intros Hf. unfold updateSelectedAnnotation.
    destruct (selectedId s) as [sid|]; [|reflexivity].
    cbn in Hf. rewrite Hf. reflexivity.
  - intros sid Hsel Hidx. unfold updateSelectedAnnotation.
    rewrite Hsel, Hidx. destruct (negb _); reflexivity.
Qed.

Lemma updateSelectedAnnotation_frame_witness :
  exists a,
    nth_error (annotations twoRects) 1 = Some a /\
    nth_error
      (annotations
         (updateSelectedAnnotation
            (mkPartial None (Some "#000000"%string) None None) twoRects)) 0
    = Some bottomRect.
Proof.
  destruct (proj1 (updateSelectedAnnotation_frame
                     (mkPartial None (Some "#000000"%string) None None)
                     twoRects) "top"%string 1%nat eq_refl)
    as (a & Hn & _ & _ & _ & _ & _ & Hother & _);
    [discriminate | reflexivity |].
  exists a. split; [exact Hn|].
  rewrite (Hother 0%nat) by discriminate. reflexivity.
Defined.

(* ================================================================== *)
(** ** Gestures *)

Lemma perform_without_image (s : State) (a : Action) :
  truthy (baseImage s) = false -> is_pointer_action a -> perform s a = s.
Proof.
  intros Hb Ha. destruct a; cbn in Ha; try contradiction; cbn;
    unfold onPointerDown, onPointerMove, onPointerUp; rewrite Hb;
    reflexivity.
Qed.

Lemma performAll_without_image (s : State) (acts : list Action) :
  truthy (baseImage s) = false ->
  Forall is_pointer_action acts ->
  performAll s acts = s.
Proof.
  intros Hb Hacts. induction Hacts as [|a acts Ha _ IH]; [reflexivity|].
  cbn. rewrite (perform_without_image s a Hb Ha). exact IH.
Qed.

(** X13: without a base image the canvas is inert. Whatever the tool and
    the session, no sequence of pointer events changes anything while
    [baseImage] is unset or empty; this is in particular the situation
    right after [removeImage]. *)
Theorem pointer_events_ignored_without_image :
  (forall s acts,
      truthy (baseImage s) = false ->
      Forall is_pointer_action acts ->
      performAll s acts = s) /\
  (forall s acts,
      Forall is_pointer_action acts ->
      performAll (removeImage s) acts = removeImage s).
Proof.
  split; [exact performAll_without_image|].
  intros s acts Hacts.
  apply performAll_without_image; [reflexivity | exact Hacts].
Qed.

Lemma pointer_events_ignored_without_image_witness :
  performAll (removeImage twoRects)
    [ PointerDown plainLayout "ann_7" (pointerAt 160 120);
      PointerMove plainLayout (pointerAt 240 180);
      PointerUp plainLayout "ann_7" (pointerAt 240 180) ]
  = removeImage twoRects.
Proof.
  apply (proj2 pointer_events_ignored_without_image).
  repeat constructor.
Defined.

Lemma setDrawing_twice (d d' : option Drawing) (s : State) :
  setDrawing d (setDrawing d' s) = setDrawing d s.
Proof. reflexivity. Qed.

Lemma moveAll_pen (moves : list (Layout * PointerEvent)) (s : State)
    (sx sy : number) (pts : list Point) (cx cy : option number) :
  truthy (baseImage s) = true ->
  drawing s = Some (mkDrawing pen sx sy (Some pts) cx cy) ->
  moveAll moves s =
  setDrawing
    (Some (mkDrawing pen sx sy (Some (pts ++ map normOf moves)) cx cy)) s.
Proof.
  revert s pts. induction moves as [|m moves IH]; intros s pts Hb Hd.
  - cbn. rewrite app_nil_r, <- Hd. destruct s; reflexivity.
  - cbn [moveAll fold_left]. fold (moveAll moves).
    assert (E : onPointerMove (fst m) (snd m) s =
                setDrawing
                  (Some (mkDrawing pen sx sy (Some (pts ++ [normOf m])) cx cy))
                  s).
    { unfold onPointerMove. rewrite Hb, Hd. reflexivity. }
    rewrite E.
    rewrite (IH _ (pts ++ [normOf m])); [|exact Hb | reflexivity].
    rewrite setDrawing_twice, <- app_assoc. reflexivity.
Qed.

(** X14: a pen stroke collects the pointer positions of its gesture. With
    the pen tool on an image, pointer-down, at least one pointer-move and
    pointer-up commit one pen annotation whose points are the normalized
    positions of the pointer-down and of every move, in order, in the
    current color and size, and select it; a pointer-down followed directly
    by pointer-up commits nothing. The position of the pointer-up itself is
    not part of the stroke. *)
Theorem pen_gesture_collects_points (down up : Layout * PointerEvent)
    (moves : list (Layout * PointerEvent)) (newId : string) (s : State) :
  truthy (baseImage s) = true ->
  tool s = pen ->
  let s' := gesture down moves up newId s in
  let stroke :=
    PenAnnotation (freshBase newId s) (normOf down :: map normOf moves) None in
  (moves <> [] ->
   committed stroke s s' /\ selectedId s' = Some newId) /\
  (moves = [] -> kept s s') /\
  drawing s' = None.
Proof.
  intros Hb Ht s' stroke. subst s' stroke. unfold gesture.
  assert (E1 : onPointerDown (fst down) newId (snd down) s =
               setDrawing
                 (Some (mkDrawing pen (pt_x (normOf down)) (pt_y (normOf down))
                          (Some [normOf down]) None None)) s).
  { unfold onPointerDown. rewrite Hb, Ht. reflexivity. }
  rewrite E1.
  rewrite (moveAll_pen moves _ (pt_x (normOf down)) (pt_y (normOf down))
             [normOf down] None None); [|exact Hb | reflexivity].
  rewrite setDrawing_twice. unfold onPointerUp. cbn [baseImage setDrawing].
  rewrite Hb. cbn [negb drawing]. unfold finishDrawing.
  cbn [d_type d_points]. cbn [app].
  destruct moves as [|m moves].
  - cbn. split; [intros H; contradiction|]. split; [|reflexivity].
    intros _. repeat split.
  - cbn. split; [|split; [discriminate | reflexivity]].
    intros _. repeat split.
Qed.

Lemma pen_gesture_collects_points_witness :
  List.length
    (annotations
       (gesture (plainLayout, pointerAt 80 60)
          [ (plainLayout, pointerAt 160 120) ]
          (plainLayout, pointerAt 160 120) "ann_5"
          (setTool pen oneRect))) = 2%nat.
Proof.
  destruct (proj1 (pen_gesture_collects_points (plainLayout, pointerAt 80 60)
                     (plainLayout, pointerAt 160 120)
                     [ (plainLayout, pointerAt 160 120) ] "ann_5"
                     (setTool pen oneRect) eq_refl eq_refl))
    as [[Ha _] _]; [discriminate|].
  rewrite Ha. reflexivity.
Defined.

Lemma Math_min_Num (a b : R) : Math_min (Num a) (Num b) = Num (Rmin a b).
Proof.
  unfold Math_min, lt, Rltb, Rmin.
  destruct (Rlt_dec b a), (Rle_dec a b); try reflexivity; f_equal; lra.
Qed.

Lemma Rabs_max_min (a b : R) : Rabs (b - a) = Rmax a b - Rmin a b.
Proof.
  unfold Rabs, Rmax, Rmin.
  destruct (Rcase_abs (b - a)), (Rle_dec a b); lra.
Qed.

(** X15: a rectangle is stored by its top-left corner and its size,
    whichever way it was dragged. Finishing a rectangle drawn from one
    corner to the opposite one gives the same state as finishing the one
    drawn the other way round; when both sides exceed the threshold the
    committed rectangle has the smaller coordinates as [x] and [y] and the
    distances between the corners as width and height. *)
Theorem rect_commit_direction_independent (newId : string) (s : State)
    (sx sy cx cy : R) (pts pts' : option (list Point)) :
  let forward := mkDrawing rect sx sy pts (Some (Num cx)) (Some (Num cy)) in
  let backward := mkDrawing rect cx cy pts' (Some (Num sx)) (Some (Num sy)) in
  finishDrawing newId forward s = finishDrawing newId backward s /\
  (0.01 < Rabs (cx - sx) -> 0.01 < Rabs (cy - sy) ->
   annotations (finishDrawing newId forward s) =
   annotations s ++
     [ RectAnnotation (freshBase newId s)
         (Num (Rmin sx cx)) (Num (Rmin sy cy))
         (Num (Rmax sx cx - Rmin sx cx)) (Num (Rmax sy cy - Rmin sy cy)) ]).
Proof.
  intros forward backward. subst forward backward.
  unfold finishDrawing. cbn [d_type d_points currentX currentY startX startY].
  autorewrite with js. rewrite !Math_min_Num.
  rewrite (Rabs_minus_sym sx cx), (Rabs_minus_sym sy cy).
  rewrite (Rmin_comm cx sx), (Rmin_comm cy sy).
  split.
  - destruct pts, pts'; reflexivity.
  - intros Hw Hh.
    assert (Hc : ((Num (Rabs (cx - sx)) >? 0.01)%js &&
                  (Num (Rabs (cy - sy)) >? 0.01)%js) = true).
    { apply andb_true_iff. split; apply gt_Num; assumption. }
    destruct pts; rewrite Hc; cbn; rewrite !Rabs_max_min; reflexivity.
Qed.

Lemma rect_commit_direction_independent_witness :
  annotations
    (finishDrawing "ann_1"
       (mkDrawing rect 0.5 0.5 None (Some (Num 0.1)) (Some (Num 0.1)))
       drawingRect)
  = annotations drawingRect ++
      [ RectAnnotation (freshBase "ann_1" drawingRect)
          (Num (Rmin 0.5 0.1)) (Num (Rmin 0.5 0.1))
          (Num (Rmax 0.5 0.1 - Rmin 0.5 0.1))
          (Num (Rmax 0.5 0.1 - Rmin 0.5 0.1)) ].
Proof.
  apply (proj2 (rect_commit_direction_independent "ann_1" drawingRect
                  0.5 0.5 0.1 0.1 None None));
    unfold Rabs; destruct (Rcase_abs (0.1 - 0.5)); lra.
Defined.

(* ================================================================== *)
(** ** Overlay and export *)

(** X16: the rectangle on screen and the rectangle in the exported image
    are the same box at two scales. For an image displayed with a non-zero
    size and exported on a canvas of its natural size, the overlay
    rectangle has the annotation's width and height times the displayed
    size, and its box, taken relative to the image's corner and scaled by
    natural size over displayed size, is the box that [exportPNG] strokes. *)
Theorem overlay_and_export_agree
    (cl ct cw chh il it iw ih natW natH x y w h : R) :
  iw <> 0 -> ih <> 0 ->
  let L := {| containerRef := Some (mkDOMRect cl ct cw chh);
              imgRef := Some (mkDOMRect il it iw ih) |} in
  exists ox oy ow oh ex ey ew eh : R,
    overlayRect L x y w h = mkBox ox oy ow oh /\
    exportRect natW natH x y w h = mkBox ex ey ew eh /\
    ow = w * iw /\ oh = h * ih /\
    (ox - (il - cl)) * (natW / iw) = ex /\
    (oy - (it - ct)) * (natH / ih) = ey /\
    ow * (natW / iw) = ew /\
    oh * (natH / ih) = eh.
Proof.
  intros Hw Hh L. subst L.
  unfold overlayRect, exportRect, fromNorm, imageDims. cbn.
  autorewrite with js.
  do 8 eexists. split; [reflexivity|]. split; [reflexivity|].
  repeat split; field; assumption.
Qed.

Lemma overlay_and_export_agree_witness :
  exists ox oy ow oh ex ey ew eh : R,
    overlayRect plainLayout 0.1 0.1 0.4 0.4 = mkBox ox oy ow oh /\
    exportRect 1600 1200 0.1 0.1 0.4 0.4 = mkBox ex ey ew eh /\
    ow * (1600 / 800) = ew /\ oh * (1200 / 600) = eh.
Proof.
  destruct (overlay_and_export_agree 0 0 800 600 0 0 800 600 1600 1200
              0.1 0.1 0.4 0.4 ltac:(lra) ltac:(lra))
    as (ox & oy & ow & oh & ex & ey & ew & eh & Ho & He & _ & _ & _ & _
        & Hw & Hh).
  exists ox, oy, ow, oh, ex, ey, ew, eh. auto.
Defined.

(* ================================================================== *)
(** ** Reordering and removing case fields *)

Lemma findIndex_app_first {A : Type} (f : A -> bool) (l1 l2 : list A)
    (a : A) :
  (forall x, In x l1 -> f x = false) -> f a = true ->
  findIndex f (l1 ++ a :: l2) = Some (List.length l1).
Proof.
  intros H1 Ha. induction l1 as [|b l1 IH]; cbn.
  - rewrite Ha. reflexivity.
  - rewrite (H1 b (or_introl eq_refl)), IH; [reflexivity|].
    intros x Hx. apply H1. right. exact Hx.
Qed.

Lemma findIndex_none {A : Type} (f : A -> bool) (l : list A) :
  (forall x, In x l -> f x = false) -> findIndex f l = None.
Proof.
  intros H. induction l as [|b l IH]; cbn; [reflexivity|].
  rewrite (H b (or_introl eq_refl)), IH; [reflexivity|].
  intros x Hx. apply H. right. exact Hx.
Qed.

Lemma findIndex_split {A : Type} (f : A -> bool) (l : list A) (i : nat) :
  findIndex f l = Some i ->
  exists l1 a l2,
    l = l1 ++ a :: l2 /\ List.length l1 = i /\ f a = true /\
    forall x, In x l1 -> f x = false.
Proof.
  revert i. induction l as [|b l IH]; intros i H; cbn in H; [discriminate|].
  destruct (f b) eqn:Hb.
  - injection H as <-. exists [], b, l. repeat split; auto.
    intros x [].
  - destruct (findIndex f l) as [j|]; [|discriminate].
    injection H as <-.
    destruct (IH j eq_refl) as (l1 & a & l2 & -> & Hlen & Ha & Hl1).
    exists (b :: l1), a, l2. cbn. repeat split; auto.
    intros x [<-|Hx]; auto.
Qed.

Lemma nth_error_middle {A : Type} (l1 l2 : list A) (a : A) :
  nth_error (l1 ++ a :: l2) (List.length l1) = Some a.
Proof. induction l1; cbn; auto. Qed.

Lemma removeAt_middle {A : Type} (l1 l2 : list A) (a : A) :
  removeAt (List.length l1) (l1 ++ a :: l2) = l1 ++ l2.
Proof.
  unfold removeAt. induction l1 as [|b l1 IH]; cbn; [reflexivity|].
  f_equal. exact IH.
Qed.

Lemma insertAt_middle {A : Type} (l1 l2 : list A) (v : A) :
  insertAt (List.length l1) v (l1 ++ l2) = l1 ++ v :: l2.
Proof.
  unfold insertAt. induction l1 as [|b l1 IH]; cbn.
  - destruct l2; reflexivity.
  - f_equal. exact IH.
Qed.

Lemma move_up_swaps (l1 l2 : list FieldDefinition) (a b : FieldDefinition)
    (i : string) :
  (forall x, In x l1 -> field_has_id i x = false) ->
  field_has_id i a = false -> field_has_id i b = true ->
  Fields.move (l1 ++ a :: b :: l2) i minus_one = l1 ++ b :: a :: l2.
Proof.
  intros H1 Ha Hb. unfold Fields.move.
  replace (l1 ++ a :: b :: l2) with ((l1 ++ [a]) ++ b :: l2)
    by (rewrite <- app_assoc; reflexivity).
  rewrite findIndex_app_first; [|intros x Hx; apply in_app_or in Hx;
    destruct Hx as [Hx|[<-|[]]]; auto | exact Hb].
  rewrite nth_error_middle, removeAt_middle.
  rewrite length_app. cbn [List.length]. rewrite Nat.add_1_r.
  rewrite <- app_assoc. cbn [app]. apply insertAt_middle.
Qed.

Lemma move_down_swaps (l1 l2 : list FieldDefinition) (a b : FieldDefinition)
    (i : string) :
  (forall x, In x l1 -> field_has_id i x = false) ->
  field_has_id i a = true ->
  Fields.move (l1 ++ a :: b :: l2) i plus_one = l1 ++ b :: a :: l2.
Proof.
  intros H1 Ha. unfold Fields.move.
  rewrite findIndex_app_first by assumption.
  rewrite nth_error_middle, removeAt_middle.
  replace (List.length (l1 ++ a :: b :: l2) <=? List.length l1 + 1)%nat
    with false
    by (symmetry; apply Nat.leb_gt; rewrite length_app; cbn; lia).
  replace (l1 ++ b :: l2) with ((l1 ++ [b]) ++ l2)
    by (rewrite <- app_assoc; reflexivity).
  replace (List.length l1 + 1)%nat with (List.length (l1 ++ [b]))
    by (rewrite length_app; reflexivity).
  rewrite insertAt_middle, <- app_assoc. reflexivity.
Qed.

(** X17: [move] exchanges a field with its neighbour and does nothing
    else. Moving the field [b] up exchanges it with the field [a] just
    before it, and moving [a] down exchanges it with the field [b] just
    after it, every other field keeping its place; the first field cannot
    move up, the last cannot move down, and an identifier that no field
    carries moves nothing. The field moved is the first that carries the
    identifier. *)
Theorem move_exchanges_neighbours (l1 l2 : list FieldDefinition)
    (a b : FieldDefinition) (i : string) :
  (forall x, In x l1 -> f_id x <> i) ->
  (f_id a <> i -> f_id b = i ->
   Fields.move (l1 ++ a :: b :: l2) i minus_one = l1 ++ b :: a :: l2) /\
  (f_id a = i ->
   Fields.move (l1 ++ a :: b :: l2) i plus_one = l1 ++ b :: a :: l2) /\
  (f_id a = i -> Fields.move (a :: l2) i minus_one = a :: l2) /\
  (f_id a = i -> Fields.move (l1 ++ [a]) i plus_one = l1 ++ [a]) /\
  (forall fields dir,
      (forall x, In x fields -> f_id x <> i) ->
      Fields.move fields i dir = fields).
Proof.
  intros H1.
  assert (H1' : forall x, In x l1 -> field_has_id i x = false).
  { intros x Hx. apply String.eqb_neq. apply H1. exact Hx. }
  split; [|split; [|split; [|split]]].
  - intros Ha Hb. apply move_up_swaps; [exact H1' | |].
    + apply String.eqb_neq. exact Ha.
    + apply String.eqb_eq. exact Hb.
  - intros Ha. apply move_down_swaps; [exact H1'|].
    apply String.eqb_eq. exact Ha.
  - intros Ha. unfold Fields.move. cbn. unfold field_has_id.
    apply String.eqb_eq in Ha. rewrite Ha. reflexivity.
  - intros Ha. unfold Fields.move.
    rewrite findIndex_app_first;
      [|exact H1' | apply String.eqb_eq; exact Ha].
    replace (List.length (l1 ++ [a]) <=? List.length l1 + 1)%nat with true
      by (symmetry; apply Nat.leb_le; rewrite length_app; cbn; lia).
    reflexivity.
  - intros fields dir Hnone. unfold Fields.move.
    rewrite findIndex_none; [reflexivity|].
    intros x Hx. apply String.eqb_neq. apply Hnone. exact Hx.
Qed.

Lemma move_exchanges_neighbours_witness :
  Fields.move [fieldName; fieldAge; fieldSymptoms] "symptoms" minus_one
    = [fieldName; fieldSymptoms; fieldAge] /\
  Fields.move [fieldName; fieldAge; fieldSymptoms] "age" plus_one
    = [fieldName; fieldSymptoms; fieldAge].
Proof.
  assert (H1 : forall i : string, i <> "patient_name"%string ->
                 forall x, In x [fieldName] -> f_id x <> i).
  { intros i Hi x [<-|[]]. cbn. congruence. }
  split.
  - apply (proj1 (move_exchanges_neighbours [fieldName] [] fieldAge
                    fieldSymptoms "symptoms"
                    (H1 "symptoms"%string ltac:(discriminate))));
      [discriminate | reflexivity].
  - apply (proj1 (proj2 (move_exchanges_neighbours [fieldName] []
                           fieldAge fieldSymptoms "age"
                           (H1 "age"%string ltac:(discriminate))))).
    reflexivity.
Defined.

Lemma field_has_id_false (i : string) (x : FieldDefinition) :
  field_has_id i x = false <-> f_id x <> i.
Proof. unfold field_has_id. exact (String.eqb_neq (f_id x) i). Qed.

Lemma list_last_cases {A : Type} (l : list A) :
  l = [] \/ exists l' c, l = l' ++ [c].
Proof.
  induction l as [|c l' _] using rev_ind; [left; reflexivity|].
  right. exists l', c. reflexivity.
Qed.

(** X18: [move] only reorders. Whatever the identifier and the direction,
    the result holds exactly the fields it was given, each as often as
    before. *)
Theorem move_is_a_permutation (fields : list FieldDefinition) (i : string)
    (dir : Dir) :
  Permutation (Fields.move fields i dir) fields /\
  List.length (Fields.move fields i dir) = List.length fields.
Proof.
  assert (P : Permutation (Fields.move fields i dir) fields).
  { destruct (findIndex (field_has_id i) fields) as [idx|] eqn:Hidx.
    - destruct (findIndex_split _ _ _ Hidx)
        as (l1 & a & l2 & -> & Hlen & Ha & Hl1).
      destruct dir.
      + destruct (list_last_cases l1) as [->|(l1' & c & ->)].
        * unfold Fields.move. rewrite Hidx. subst idx. reflexivity.
        * rewrite <- app_assoc. cbn [app].
          rewrite move_up_swaps.
          -- apply Permutation_app_head. apply perm_swap.
          -- intros x Hx. apply Hl1. apply in_or_app. left. exact Hx.
          -- apply Hl1. apply in_or_app. right. left. reflexivity.
          -- exact Ha.
      + destruct l2 as [|b l2].
        * unfold Fields.move. rewrite Hidx. subst idx.
          replace (List.length (l1 ++ [a]) <=? List.length l1 + 1)%nat
            with true
            by (symmetry; apply Nat.leb_le; rewrite length_app; cbn; lia).
          reflexivity.
        * rewrite move_down_swaps by assumption.
          apply Permutation_app_head. apply perm_swap.
    - unfold Fields.move. rewrite Hidx. reflexivity. }
  split; [exact P | apply Permutation_length; exact P].
Qed.

(** X19: moving a field up and then down puts every field back, and so
    does moving it down and then up when the field below carries another
    identifier (as it does when identifiers are unique). *)
Theorem move_round_trip (fields : list FieldDefinition) (i : string) :
  (forall j,
      findIndex (field_has_id i) fields = Some (S j) ->
      Fields.move (Fields.move fields i minus_one) i plus_one = fields) /\
  (forall idx,
      findIndex (field_has_id i) fields = Some idx ->
      (S idx < List.length fields)%nat ->
      NoDup (map f_id fields) ->
      Fields.move (Fields.move fields i plus_one) i minus_one = fields).
Proof.
  split.
  - intros j Hidx.
    destruct (findIndex_split _ _ _ Hidx)
      as (l1 & a & l2 & -> & Hlen & Ha & Hl1).
    destruct (list_last_cases l1) as [->|(l1' & c & ->)]; [discriminate|].
    assert (Hl1' : forall x, In x l1' -> field_has_id i x = false)
      by (intros x Hx; apply Hl1; apply in_or_app; left; exact Hx).
    assert (Hc : field_has_id i c = false)
      by (apply Hl1; apply in_or_app; right; left; reflexivity).
    rewrite <- app_assoc. cbn [app].
    rewrite move_up_swaps by assumption.
    apply move_down_swaps; assumption.
  - intros idx Hidx Hlt Hnd.
    destruct (findIndex_split _ _ _ Hidx)
      as (l1 & a & l2 & -> & Hlen & Ha & Hl1).
    destruct l2 as [|b l2];
      [rewrite length_app in Hlt; cbn in Hlt; lia|].
    assert (Hb : field_has_id i b = false).
    { apply field_has_id_false. unfold field_has_id in Ha.
      apply String.eqb_eq in Ha. rewrite <- Ha.
      rewrite map_app in Hnd. cbn in Hnd.
      apply NoDup_remove_2 in Hnd. intros E. apply Hnd.
      apply in_or_app. right. left. exact E. }
    rewrite move_down_swaps by assumption.
    apply move_up_swaps; assumption.
Qed.

Lemma move_round_trip_witness :
  Fields.move
    (Fields.move [fieldName; fieldAge; fieldSymptoms] "age" minus_one)
    "age" plus_one
  = [fieldName; fieldAge; fieldSymptoms].
Proof.
  apply (proj1 (move_round_trip [fieldName; fieldAge; fieldSymptoms] "age")
           0%nat).
  reflexivity.
Defined.

(* ================================================================== *)
(** ** Multiple-choice values *)

Lemma includes_In (v : string) (arr : list string) :
  Fields.includes v arr = true <-> In v arr.
Proof.
  unfold Fields.includes. rewrite existsb_exists. split.
  - intros (x & Hx & E). apply String.eqb_eq in E. subst. exact Hx.
  - intros H. exists v. split; [exact H | apply String.eqb_refl].
Qed.

Lemma includes_false (v : string) (arr : list string) :
  Fields.includes v arr = false <-> ~ In v arr.
Proof.
  rewrite <- includes_In. destruct (Fields.includes v arr); split;
    intros H; try reflexivity; try discriminate; try (intros E; discriminate).
  exfalso. apply H. reflexivity.
Qed.

Lemma includes_eq (u : string) (l l' : list string) :
  (In u l <-> In u l') -> Fields.includes u l = Fields.includes u l'.
Proof.
  intros H. destruct (Fields.includes u l') eqn:E.
  - apply includes_In. apply H. apply includes_In. exact E.
  - apply includes_false. intros Hin. apply includes_false in E.
    apply E. apply H. exact Hin.
Qed.

Lemma In_without (u v : string) (arr : list string) :
  In u (filter (fun x => negb (String.eqb x v)) arr) <-> In u arr /\ u <> v.
Proof.
  rewrite filter_In. split; intros [H1 H2]; split; try exact H1.
  - apply negb_true_iff in H2. apply String.eqb_neq. exact H2.
  - apply negb_true_iff. apply String.eqb_neq. exact H2.
Qed.

(** X20: a click on an option of a multiselect field flips that option
    and no other: the option is in the new value exactly when it was not in
    the old one, every other option is in the new value exactly when it was
    in the old one, a value without repetitions stays without repetitions,
    and switching an absent option on and off again gives the old value
    back. The switch of a checkbox option leaves the option in the state
    the switch reports and every other option as it was. *)
Theorem toggleOption_flips_one_option (value : option (list string))
    (v : string) :
  let arr := or_else value [] in
  let next := Fields.toggleOption value v in
  Fields.includes v next = negb (Fields.includes v arr) /\
  (forall u, u <> v -> Fields.includes u next = Fields.includes u arr) /\
  (NoDup arr -> NoDup next) /\
  (Fields.includes v arr = false ->
   Fields.toggleOption (Some next) v = arr) /\
  (forall c,
      Fields.includes v (Fields.switchOption value v c) = c /\
      forall u, u <> v ->
        Fields.includes u (Fields.switchOption value v c)
        = Fields.includes u arr).
Proof.
  intros arr next. subst next. unfold Fields.toggleOption. fold arr.
  assert (Hoff : Fields.includes v
                   (filter (fun x => negb (String.eqb x v)) arr) = false).
  { apply includes_false. rewrite In_without. intros [_ H]. apply H.
    reflexivity. }
  assert (Hon : Fields.includes v (arr ++ [v]) = true).
  { apply includes_In. apply in_or_app. right. left. reflexivity. }
  assert (Hoff' : forall u, u <> v ->
            Fields.includes u (filter (fun x => negb (String.eqb x v)) arr)
            = Fields.includes u arr).
  { intros u Hu. apply includes_eq. rewrite In_without. tauto. }
  assert (Hon' : forall u, u <> v ->
            Fields.includes u (arr ++ [v]) = Fields.includes u arr).
  { intros u Hu. apply includes_eq. rewrite in_app_iff. cbn.
    split; [intros [H|[H|[]]]; [exact H | congruence] | tauto]. }
  split; [|split; [|split; [|split]]].
  - destruct (Fields.includes v arr); cbn; assumption.
  - intros u Hu. destruct (Fields.includes v arr); auto.
  - intros Hnd. destruct (Fields.includes v arr) eqn:E.
    + apply NoDup_filter. exact Hnd.
    + apply includes_false in E.
      apply NoDup_rev in Hnd. rewrite <- (rev_involutive (arr ++ [v])).
      apply NoDup_rev. rewrite rev_app_distr. cbn.
      constructor; [rewrite <- in_rev; exact E | exact Hnd].
  - intros E. rewrite E. cbn [or_else]. rewrite Hon.
    rewrite filter_app. cbn. rewrite String.eqb_refl. cbn.
    rewrite app_nil_r. apply filter_keeps_all.
    intros x Hx. apply negb_true_iff. apply String.eqb_neq.
    apply includes_false in E. intros ->. contradiction.
  - intros c. unfold Fields.switchOption. fold arr.
    destruct c; split; auto.
Qed.

Lemma toggleOption_flips_one_option_witness :
  Fields.toggleOption (Some (Fields.toggleOption (Some ["ct"%string]) "mri"))
    "mri" = ["ct"%string] /\
  NoDup (Fields.toggleOption (Some ["ct"%string]) "mri").
Proof.
  pose proof (toggleOption_flips_one_option (Some ["ct"%string]) "mri")
    as (_ & _ & Hnd & Hrt & _).
  split.
  - apply Hrt. reflexivity.
  - apply Hnd. cbn. repeat constructor; cbn; intuition discriminate.
Defined.

(* ================================================================== *)
(** ** JSON export *)

Lemma find_unique_field (fields : list FieldDefinition)
    (f : FieldDefinition) :
  NoDup (map f_id fields) -> In f fields ->
  find (field_has_id (f_id f)) fields = Some f.
Proof.
  induction fields as [|g fields IH]; intros Hnd Hin; [contradiction|].
  cbn in *. inversion Hnd as [|x xs Hnot Hrest]; subst.
  destruct Hin as [->|Hin].
  - unfold field_has_id. rewrite String.eqb_refl. reflexivity.
  - unfold field_has_id at 1.
    destruct (String.eqb_spec (f_id g) (f_id f)) as [E|_].
    + exfalso. apply Hnot. rewrite E. apply in_map. exact Hin.
    + apply IH; assumption.
Qed.

(** X21: what the JSON export leaves out. With "include sensitive" off,
    the exported values are exactly the entries whose identifier does not
    resolve to a field flagged sensitive (the first field carrying the
    identifier decides), in their original order; when field identifiers
    are unique no value of a sensitive field is exported. The field
    definitions themselves are always exported in full, and with "include
    sensitive" on so are all the values. The image and the annotations are
    exported exactly when their switches are on. *)
Theorem payload_leaves_out_sensitive_values
    (includeImage includeAnnotations : bool) (now : number)
    (data : CaseSheetData) :
  let out :=
    ExportPanel.payload false includeImage includeAnnotations now data in
  (forall i v,
      In (i, v) (cs_values out) <->
      In (i, v) (cs_values data) /\
      ExportPanel.notSensitive (cs_fields data) i = true) /\
  (NoDup (map f_id (cs_fields data)) ->
   forall f v,
     In f (cs_fields data) -> f_sensitive f = Some true ->
     ~ In (f_id f, v) (cs_values out)) /\
  cs_fields out = cs_fields data /\
  cs_values (ExportPanel.payload true includeImage includeAnnotations now data)
    = cs_values data /\
  cs_baseImage out = (if includeImage then cs_baseImage data else None) /\
  cs_annotations out =
    (if includeAnnotations then cs_annotations data else []).
Proof.
  intros out. subst out. cbn.
  assert (V : forall i v,
             In (i, v)
               (filter (fun entry =>
                          ExportPanel.notSensitive (cs_fields data)
                            (fst entry)) (cs_values data)) <->
             In (i, v) (cs_values data) /\
             ExportPanel.notSensitive (cs_fields data) i = true).
  { intros i v. rewrite filter_In. reflexivity. }
  split; [exact V|]. split; [|split; [|split; [|split]]].
  - intros Hnd f v Hf Hs Hin. apply V in Hin. destruct Hin as [_ Hn].
    unfold ExportPanel.notSensitive in Hn.
    rewrite (find_unique_field _ _ Hnd Hf), Hs in Hn. discriminate.
  - apply map_id.
  - apply filter_keeps_all. reflexivity.
  - reflexivity.
  - reflexivity.
Qed.

Lemma payload_leaves_out_sensitive_values_witness :
  cs_values
    (ExportPanel.payload false true true 0
       (mkCaseSheetData "cardiology" "cardiology"
          [fieldName; fieldAge; fieldSymptoms]
          [ ("patient_name"%string, FVString "Jane Doe");
            ("symptoms"%string, FVString "Chest pain") ]
          None [] 0))
  = [ ("symptoms"%string, FVString "Chest pain") ] /\
  ~ In ("patient_name"%string, FVString "Jane Doe")
      (cs_values
         (ExportPanel.payload false true true 0
            (mkCaseSheetData "cardiology" "cardiology"
               [fieldName; fieldAge; fieldSymptoms]
               [ ("patient_name"%string, FVString "Jane Doe");
                 ("symptoms"%string, FVString "Chest pain") ]
               None [] 0))).
Proof.
  split; [reflexivity|].
  apply (proj1 (proj2 (payload_leaves_out_sensitive_values true true 0
           (mkCaseSheetData "cardiology" "cardiology"
              [fieldName; fieldAge; fieldSymptoms]
              [ ("patient_name"%string, FVString "Jane Doe");
                ("symptoms"%string, FVString "Chest pain") ]
              None [] 0))) ltac:(cbn; repeat constructor; cbn;
                                 intuition discriminate)
           fieldName (FVString "Jane Doe")).
  - left. reflexivity.
  - reflexivity.
Defined.

Lemma distanceToLine_is_segment_distance_witness :
  exists d : R,
    distanceToLine 1 1 0 0 2 0 = Num d /\
    d <= dist 1 1 (along 0 2 (1 / 4)) (along 0 0 (1 / 4)).
Proof.
  destruct (distanceToLine_is_segment_distance 1 1 0 0 2 0)
    as (d & t0 & Hd & _ & _ & _ & Hmin).
  exists d. split; [exact Hd|]. apply Hmin. lra.
Defined.

(* ================================================================== *)
(** ** Undo across image changes *)

(** X22: the history survives a change of image. After [removeImage], one
    undo brings the annotations back while the image stays removed, so that
    the canvas shows them but ignores every pointer event; and after a new
    image has been loaded, one undo puts the latest snapshot, taken on the
    previous image, on the new image. *)
Theorem undo_crosses_image_changes (s : State) :
  (annotations (undo (removeImage s)) = annotations s /\
   baseImage (undo (removeImage s)) = None /\
   forall acts,
     Forall is_pointer_action acts ->
     performAll (undo (removeImage s)) acts = undo (removeImage s)) /\
  (forall data u p,
      undoStack s = u ++ [p] ->
      annotations (undo (onImageFileChange (Some (Some data)) s)) = p /\
      baseImage (undo (onImageFileChange (Some (Some data)) s))
        = Some data).
Proof.
  split.
  - assert (E : undo (removeImage s) =
                setEditingTextId None
                  (setSelectedId None
                     (setRedoStack [[]] (onBaseImageChange None s)))).
    { erewrite undo_nonempty by (cbn; reflexivity).
      destruct s; reflexivity. }
    rewrite E. split; [reflexivity|]. split; [reflexivity|].
    intros acts Hacts.
    apply performAll_without_image; [reflexivity | exact Hacts].
  - intros data u p Hu.
    erewrite undo_nonempty by (cbn; exact Hu). split; reflexivity.
Qed.

Lemma undo_crosses_image_changes_witness :
  annotations
    (undo (onImageFileChange (Some (Some "data:image/png;base64,BBBB"%string))
             (pushHistory [] twoRects)))
  = [bottomRect; topRect].
Proof.
  apply (proj2 (undo_crosses_image_changes (pushHistory [] twoRects))
           "data:image/png;base64,BBBB"%string [] [bottomRect; topRect]).
  reflexivity.
Defined.

(* ================================================================== *)
(** ** Starting a drag *)

(** X23: the drag that a hit starts fits the annotation hit. A resize is
    started only on a rectangle and always with a corner, an endpoint drag
    only on an arrow, and a pen stroke or a text label can only be moved;
    conversely a drag that carries a corner is a resize. *)
Theorem pickDrag_fits_annotation (L : Layout) (localX localY : number)
    (a : Annotation) :
  let r := pickDrag L localX localY a in
  (fst r = resizeRect <-> snd r <> None) /\
  (fst r = resizeRect -> ann_type a = rect) /\
  (fst r = arrowStart \/ fst r = arrowEnd -> ann_type a = arrow) /\
  (ann_type a = pen \/ ann_type a = text -> r = (move, None)).
Proof.
  intros r. subst r. unfold pickDrag.
  destruct a as [b pts o|b x y w h|b x1 y1 x2 y2|b x y t]; cbn [ann_type].
  - cbn. repeat split; try discriminate; try tauto;
      intros [H|H]; discriminate.
  - destruct (find _ _) as [hit|]; cbn; repeat split; try discriminate;
      try tauto; try (intros [H|H]; discriminate).
  - repeat match goal with
      | |- context [if ?c then _ else _] => destruct c
      end; cbn; repeat split; try discriminate; try tauto;
      intros [H|H]; discriminate.
  - cbn. repeat split; try discriminate; try tauto;
      intros [H|H]; discriminate.
Qed.

(** X24: pointer-down with the select tool. On a hit it selects the
    annotation hit, which is in the set and passes the hit test, and starts
    a drag on it from the normalized pointer position, without changing the
    set; on a miss it clears the selection and the text being edited and
    touches neither the set nor the history nor the drag state. *)
Theorem select_pointer_down (L : Layout) (newId : string)
    (e : PointerEvent) (s : State) :
  truthy (baseImage s) = true ->
  tool s = select ->
  let s' := onPointerDown L newId e s in
  let norm := toNorm L (clientX e) (clientY e) in
  (forall h crect,
      getAnnotationAt L (annotations s) (clientX e) (clientY e) = Some h ->
      h <> ""%string ->
      containerRef L = Some crect ->
      (exists a, In a (annotations s) /\ ann_id a = h /\ hits norm a = true)
      /\ selectedId s' = Some h
      /\ isDragging s' = true
      /\ annotations s' = annotations s
      /\ exists m c,
           dragRef s' = Some (mkDragRef m h c (pt_x norm) (pt_y norm))) /\
  (getAnnotationAt L (annotations s) (clientX e) (clientY e) = None ->
   selectedId s' = None /\ editingTextId s' = None /\
   kept s s' /\ isDragging s' = isDragging s /\ dragRef s' = dragRef s).
Proof.
  intros Hb Ht s' norm. split.
  - intros h crect Hhit Hne Hc.
    destruct (onPointerDown_select_hit L newId e s h crect Hb Ht Hhit Hne Hc)
      as (Ha & _ & Hg & Hsel & _ & _ & _ & Hdr).
    split; [exact (getAnnotationAt_some _ _ _ _ _ Hhit)|].
    repeat split; assumption.
  - intros Hmiss. subst s'. unfold onPointerDown.
    rewrite Hb, Ht, Hmiss. cbn. repeat split.
Qed.

Lemma select_pointer_down_witness :
  selectedId
    (onPointerDown plainLayout "ann_9" (pointerAt 720 540) twoRects) = None.
Proof.
  refine (proj1 (proj2 (select_pointer_down plainLayout "ann_9"
                          (pointerAt 720 540) twoRects eq_refl eq_refl) _)).
  rewrite getAnnotationAt_find. unfold pointerAt. cbn [clientX clientY].
  rewrite toNorm_plain by lra.
  assert (H1 : hits {| pt_x := Num (720 / 800); pt_y := Num (540 / 600) |}
                 bottomRect = false) by (cbn; js_compare).
  assert (H2 : hits {| pt_x := Num (720 / 800); pt_y := Num (540 / 600) |}
                 topRect = false) by (cbn; js_compare).
  cbn [twoRects init setSelectedId annotations rev app find option_map].
  rewrite H2, H1. reflexivity.
Defined.

(* ================================================================== *)
(** ** How the moves of a drag compose *)

Lemma clamp_inside (v lo hi : R) :
  lo <= v <= hi -> clamp v lo hi = Num v.
Proof.
  intros H. destruct (clamp_Num v lo hi) as (r & E & _ & K); [lra|].
  rewrite E, (K H). reflexivity.
Qed.

(** X25: the moves of a drag add up. Moving a rectangle or a text label
    with the pointer going from [p0] to [p1] and then from [p1] to [p2]
    gives what one move from [p0] to [p2] gives, provided the intermediate
    position needed no clamping. *)
Theorem move_drags_add_up (i : string) (c : option Corner)
    (p0x p0y p1x p1y p2x p2y : R) :
  let step1 := mkDragRef move i c p0x p0y in
  let step2 := mkDragRef move i c p1x p1y in
  let n1 := {| pt_x := Num p1x; pt_y := Num p1y |} in
  let n2 := {| pt_x := Num p2x; pt_y := Num p2y |} in
  (forall b (x y w h : R),
      0 <= x + (p1x - p0x) <= 1 - w ->
      0 <= y + (p1y - p0y) <= 1 - h ->
      dragUpdate step2 n2 (dragUpdate step1 n1 (RectAnnotation b x y w h))
      = dragUpdate step1 n2 (RectAnnotation b x y w h)) /\
  (forall b (x y : R) t,
      0 <= x + (p1x - p0x) <= 1 ->
      0 <= y + (p1y - p0y) <= 1 ->
      dragUpdate step2 n2 (dragUpdate step1 n1 (TextAnnotation b x y t))
      = dragUpdate step1 n2 (TextAnnotation b x y t)).
Proof.
  intros step1 step2 n1 n2. subst step1 step2 n1 n2. split.
  - intros b x y w h Hx Hy.
    cbn [dragUpdate mode prevX prevY pt_x pt_y]. autorewrite with js.
    rewrite (clamp_inside (x + (p1x - p0x))), (clamp_inside (y + (p1y - p0y)))
      by assumption.
    autorewrite with js.
    replace (x + (p1x - p0x) + (p2x - p1x)) with (x + (p2x - p0x)) by lra.
    replace (y + (p1y - p0y) + (p2y - p1y)) with (y + (p2y - p0y)) by lra.
    reflexivity.
  - intros b x y t Hx Hy.
    cbn [dragUpdate mode prevX prevY pt_x pt_y]. autorewrite with js.
    rewrite (clamp_inside (x + (p1x - p0x))), (clamp_inside (y + (p1y - p0y)))
      by assumption.
    autorewrite with js.
    replace (x + (p1x - p0x) + (p2x - p1x)) with (x + (p2x - p0x)) by lra.
    replace (y + (p1y - p0y) + (p2y - p1y)) with (y + (p2y - p0y)) by lra.
    reflexivity.
Qed.

Lemma move_drags_add_up_witness :
  dragUpdate (mkDragRef move "bottom" None 0.3 0.3)
    {| pt_x := Num 0.5; pt_y := Num 0.4 |}
    (dragUpdate (mkDragRef move "bottom" None 0.2 0.2)
       {| pt_x := Num 0.3; pt_y := Num 0.3 |} bottomRect)
  = dragUpdate (mkDragRef move "bottom" None 0.2 0.2)
      {| pt_x := Num 0.5; pt_y := Num 0.4 |} bottomRect.
Proof.
  apply (proj1 (move_drags_add_up "bottom" None 0.2 0.2 0.3 0.3 0.5 0.4)
           (plainBase "bottom") 0.1 0.1 0.4 0.4); lra.
Defined.

(** X26: a corner resize is absolute. On a rectangle inside the unit
    square, dragging a corner to one pointer position and then to another
    gives what dragging it to the second position alone gives, whatever
    the first position was. *)
Theorem resize_depends_on_last_position (b : BaseAnnotation) (i : string)
    (x y w h p1x p1y p2x p2y q1x q1y q2x q2y : R) (c : Corner) :
  0 <= x -> 0 <= y -> 0 <= w -> 0 <= h -> x + w <= 1 -> y + h <= 1 ->
  let a := RectAnnotation b x y w h in
  dragUpdate (mkDragRef resizeRect i (Some c) q2x q2y)
    {| pt_x := Num p2x; pt_y := Num p2y |}
    (dragUpdate (mkDragRef resizeRect i (Some c) q1x q1y)
       {| pt_x := Num p1x; pt_y := Num p1y |} a)
  = dragUpdate (mkDragRef resizeRect i (Some c) q1x q1y)
      {| pt_x := Num p2x; pt_y := Num p2y |} a.
Proof.
  intros Hx Hy Hw Hh Hxw Hyh a. subst a.
  destruct c; cbn [dragUpdate mode corner pt_x pt_y]; autorewrite with js.
  - destruct (clamp_Num p1x 0 (x + w)) as (rx & Ex & Hrx & _); [lra|].
    destruct (clamp_Num p1y 0 (y + h)) as (ry & Ey & Hry & _); [lra|].
    rewrite ?Ex, ?Ey. autorewrite with js.
    replace (rx + (x + w - rx)) with (x + w) by lra.
    replace (ry + (y + h - ry)) with (y + h) by lra.
    reflexivity.
  - destruct (clamp_Num (p1x - x) 0 (1 - x)) as (rw & Ew & Hrw & _); [lra|].
    destruct (clamp_Num p1y 0 (y + h)) as (ry & Ey & Hry & _); [lra|].
    rewrite ?Ew, ?Ey. autorewrite with js.
    replace (ry + (y + h - ry)) with (y + h) by lra.
    reflexivity.
  - destruct (clamp_Num p1x 0 (x + w)) as (rx & Ex & Hrx & _); [lra|].
    destruct (clamp_Num (p1y - y) 0 (1 - y)) as (rh & Eh & Hrh & _); [lra|].
    rewrite ?Ex, ?Eh. autorewrite with js.
    replace (rx + (x + w - rx)) with (x + w) by lra.
    reflexivity.
  - destruct (clamp_Num (p1x - x) 0 (1 - x)) as (rw & Ew & Hrw & _); [lra|].
    destruct (clamp_Num (p1y - y) 0 (1 - y)) as (rh & Eh & Hrh & _); [lra|].
    rewrite ?Ew, ?Eh. reflexivity.
Qed.

Lemma resize_depends_on_last_position_witness :
  dragUpdate (mkDragRef resizeRect "bottom" (Some nw) 0.3 0.2)
    {| pt_x := Num 0.2; pt_y := Num 0.3 |}
    (dragUpdate (mkDragRef resizeRect "bottom" (Some nw) 0.1 0.1)
       {| pt_x := Num 0.3; pt_y := Num 0.2 |} bottomRect)
  = dragUpdate (mkDragRef resizeRect "bottom" (Some nw) 0.1 0.1)
      {| pt_x := Num 0.2; pt_y := Num 0.3 |} bottomRect.
Proof.
  apply (resize_depends_on_last_position (plainBase "bottom") "bottom"
           0.1 0.1 0.4 0.4 0.3 0.2 0.2 0.3 0.1 0.1 0.3 0.2 nw); lra.
Defined.

Lemma pickDrag_fits_annotation_witness :
  snd (pickDrag plainLayout 80 60 bottomRect) <> None.
Proof.
  apply (proj1 (proj1 (pickDrag_fits_annotation plainLayout 80 60
                         bottomRect))).
  unfold pickDrag, bottomRect, fromNorm, imageDims, plainLayout. cbn.
  autorewrite with js. unfold Math_hypot, lt, Rltb.
  match goal with
  | |- context [Rlt_dec ?a 10] => destruct (Rlt_dec a 10) as [_|n]
  end; [reflexivity|].
  exfalso. apply n.
  replace ((0 - 0 + 0.1 * 800 - 80) * (0 - 0 + 0.1 * 800 - 80) +
           (0 - 0 + 0.1 * 600 - 60) * (0 - 0 + 0.1 * 600 - 60)) with 0
    by lra.
  rewrite sqrt_0. lra.
Defined.

(* ================================================================== *)
(** ** Edge cases *)

(** X27: the edge cases of [clamp]. [NaN] passes through; on a range that
    is not empty the two infinities are brought to the bounds and every
    number lands in the range, a number below it on the lower bound and a
    number above it on the upper bound; on an inverted range, with [max]
    below [min], the result is [min] for every input but [NaN]. *)
Theorem clamp_edge_cases (lo hi : R) :
  clamp NaN lo hi = NaN /\
  (lo <= hi ->
   clamp PosInf lo hi = Num hi /\
   clamp NegInf lo hi = Num lo /\
   forall v : R,
     within lo hi (clamp v lo hi) /\
     (v <= lo -> clamp v lo hi = Num lo) /\
     (hi <= v -> clamp v lo hi = Num hi)) /\
  (hi < lo -> forall v : number, v <> NaN -> clamp v lo hi = Num lo).
Proof.
  split; [reflexivity|]. split.
  - intros Hle. unfold clamp, Math_max, Math_min, lt, Rltb. cbn.
    split; [destruct (Rlt_dec lo hi); [reflexivity | f_equal; lra]|].
    split; [reflexivity|].
    intros v. destruct (Rlt_dec v hi); destruct (Rlt_dec lo _);
      (split; [eexists; split; [reflexivity | lra]|]);
      split; intros; f_equal; lra.
  - intros Hlt v Hv. unfold clamp, Math_max, Math_min, lt, Rltb.
    destruct v as [r| | |]; [| | |contradiction]; cbn.
    + destruct (Rlt_dec r hi); destruct (Rlt_dec lo _); try reflexivity; lra.
    + destruct (Rlt_dec lo hi); [lra | reflexivity].
    + reflexivity.
Qed.

Lemma clamp_edge_cases_witness :
  clamp PosInf 0 1 = Num 1 /\ clamp (Num 0.5) 0 (1 - 2) = Num 0.
Proof.
  split.
  - apply (proj1 (proj2 (clamp_edge_cases 0 1))). lra.
  - apply (proj2 (proj2 (clamp_edge_cases 0 (1 - 2)))); [lra|discriminate].
Defined.



